(** * bono_cat: the catalog pipeline, embedded and checked against its specification

    The development follows the layout of the repository:

    - [RunPod]    : [src/integrations/runpod.py]   (job submission and polling)
    - [Drive]     : [src/integrations/google_drive.py] (folder watcher)
    - [ImageUtil] : [src/utils/image.py]            (garment preparation)
    - [Assembler] : [src/catalog/assembler.py]      (page layout and composition)
    - [Pipeline]  : [pipeline.py]                   (batch orchestration)

    Python values are modelled as follows.  A call that may raise returns an
    [Outcome]; a [dict] with string keys is a [gmap string _]; a [set] of
    identifiers is a [gset string]; wall-clock time and page coordinates,
    floats in the source, are exact rationals ([Q]); an unbounded
    [while True] loop takes a fuel argument and returns [None] only when the
    fuel runs out. *)

From Stdlib Require Import ZArith QArith Qabs Qround Lqa Lia List Bool.
From Stdlib Require Import String Ascii.
From stdpp Require Import gmap strings list pretty.

Set Warnings "-clear-no-such-hyp".

Local Open Scope string_scope.
Local Open Scope Z_scope.

(** ** Python exceptions and outcomes *)

(** A raised exception: its class name and its message ([str(e)]). *)
Record exn : Type := Exn { exn_class : string; exn_msg : string }.

Inductive Outcome (A : Type) : Type :=
| Ret (a : A)
| Raise (e : exn).
Arguments Ret {A} a.
Arguments Raise {A} e.

Definition is_ret {A} (o : Outcome A) : bool :=
  match o with Ret _ => true | Raise _ => false end.

(** Python's [x or y] on optional strings: [None] and [""] are falsy. *)
Definition truthy_str (o : option string) : bool :=
  match o with
  | Some s => negb (String.eqb s "")
  | None => false
  end.

Definition py_or (a b : option string) : option string :=
  if truthy_str a then a else b.

(** [f"{x}"] for an optional string: [None] prints as [None]. *)
Definition fmt_opt (o : option string) : string :=
  match o with Some s => s | None => "None" end.

(** ** [src/integrations/runpod.py] *)
Module RunPod.

(** [@dataclass class JobResult] *)
Record JobResult : Type := mkJobResult {
  success : bool;
  job_id : option string;
  status : option string;
  output : option (gmap string string);
  error : option string;
  execution_time : option Q
}.

(** The client's configuration: [timeout] and [poll_interval], whole
    seconds ([RunPodClient.__init__]). *)
Record Client : Type := mkClient {
  timeout : Z;
  poll_interval : Z
}.

(** The decoded JSON body of an endpoint response: the keys the client
    reads with [data.get]. *)
Record Body : Type := mkBody {
  b_id : option string;
  b_status : option string;
  b_output : option (gmap string string);
  b_error : option string
}.

(** An HTTP response: [response.status_code], [response.text],
    [response.json()]. *)
Record Response : Type := mkResponse {
  status_code : Z;
  text : string;
  json : Body
}.

(** One awaited request as the client sees it: the wall-clock time it
    takes, and either a response or the transport exception that
    [client.get] / [client.post] raises. *)
Record Reply : Type := mkReply {
  latency : Q;
  reply : Outcome Response
}.

(** What a run of the client leaves behind: the value returned (or the
    exception raised), the clock at that moment, and the number of status
    queries sent. *)
Record Run : Type := mkRun {
  result : Outcome JobResult;
  end_time : Q;
  queries : nat
}.

Definition timeout_result (c : Client) (jid : option string) : JobResult :=
  mkJobResult false jid (Some "timeout") None
    (Some ("Job timed out after " +:+ pretty (timeout c) +:+ " seconds"))
    None.

Definition str_is (o : option string) (s : string) : bool :=
  match o with
  | Some x => String.eqb x s
  | None => false
  end.

(** A status the loop returns on: COMPLETED, FAILED or CANCELLED. *)
Definition terminal_status (o : option string) : bool :=
  str_is o "COMPLETED" || str_is o "FAILED" || str_is o "CANCELLED".

(** [time.time() - start_time > self.timeout] *)
Definition timed_out (c : Client) (start now : Q) : bool :=
  negb (Qle_bool (now - start) (inject_Z (timeout c))).

(** [RunPodClient._poll_for_result].  [env i] is the reply to the [i]-th
    status query; [asyncio.sleep(self.poll_interval)] advances the clock
    by [poll_interval]. *)
Fixpoint _poll_for_result (fuel : nat) (c : Client) (env : nat -> Reply)
    (jid : option string) (start now : Q) (i : nat) : option Run :=
  match fuel with
  | O => None
  | S fuel' =>
    if timed_out c start now then
      Some (mkRun (Ret (timeout_result c jid)) now i)
    else
      let now1 := (now + latency (env i))%Q in
      match reply (env i) with
      | Raise e => Some (mkRun (Raise e) now1 (S i))
      | Ret response =>
        if negb (status_code response =? 200)%Z then
          _poll_for_result fuel' c env jid start
            (now1 + inject_Z (poll_interval c))%Q (S i)
        else
          let data := json response in
          let st := b_status data in
          if str_is st "COMPLETED" then
            Some (mkRun (Ret (mkJobResult true jid st
                    (Some (default ∅ (b_output data))) None None))
                  now1 (S i))
          else if str_is st "FAILED" then
            Some (mkRun (Ret (mkJobResult false jid st None
                    (Some (default "Job failed without error message"
                             (b_error data))) None))
                  now1 (S i))
          else if str_is st "CANCELLED" then
            Some (mkRun (Ret (mkJobResult false jid st None
                    (Some "Job was cancelled") None))
                  now1 (S i))
          else
            _poll_for_result fuel' c env jid start
              (now1 + inject_Z (poll_interval c))%Q (S i)
      end
  end.

Definition set_execution_time (r : JobResult) (t : Q) : JobResult :=
  mkJobResult (success r) (job_id r) (status r) (output r) (error r) (Some t).

(** [RunPodClient.submit_job], called at clock [now]; [post] is the reply
    to the submission request. *)
Definition submit_job (fuel : nat) (c : Client) (post : Reply)
    (env : nat -> Reply) (wait_for_completion : bool) (now : Q)
    : option Run :=
  let start_time := now in
  let now1 := (now + latency post)%Q in
  match reply post with
  | Raise e => Some (mkRun (Raise e) now1 0%nat)
  | Ret response =>
    if negb (status_code response =? 200)%Z then
      Some (mkRun (Ret (mkJobResult false (Some "") (Some "error") None
              (Some ("Failed to submit job: " +:+ text response)) None))
            now1 0%nat)
    else
      let jid := b_id (json response) in
      if negb wait_for_completion then
        Some (mkRun (Ret (mkJobResult true jid (Some "queued") None None None))
              now1 0%nat)
      else
        match _poll_for_result fuel c env jid now1 now1 0%nat with
        | None => None
        | Some run =>
          match result run with
          | Raise e => Some run
          | Ret r =>
            Some (mkRun
                    (Ret (set_execution_time r (end_time run - start_time)%Q))
                    (end_time run) (queries run))
          end
        end
  end.

(** The submission was accepted: the endpoint answered 200. *)
Definition accepted (post : Reply) : Prop :=
  exists resp, reply post = Ret resp /\ status_code resp = 200.

(** A status query answered 200 with a status that is none of COMPLETED,
    FAILED, CANCELLED. *)
Definition reports_nonterminal (r : Reply) : Prop :=
  exists resp, reply r = Ret resp /\ status_code resp = 200 /\
    terminal_status (b_status (json resp)) = false.

(** A reply that keeps the loop going: an HTTP response that is either not
    a 200 or a 200 whose status is none of COMPLETED, FAILED, CANCELLED. *)
Definition keeps_polling (r : Reply) : Prop :=
  exists resp, reply r = Ret resp /\
    (status_code resp <> 200 \/ terminal_status (b_status (json resp)) = false).

(** The states of the specification's [JobOutcome]. *)
Inductive JobState : Type :=
| Accepted | Running | Succeeded | Failed | TimedOut | Cancelled.

(** The state a [JobResult] stands for, read off its [status] string:
    [queued] is a job accepted and not waited for, [timeout] the client's
    own deadline, [error] a refused request; the rest are the endpoint's
    status codes. *)
Definition state_of (r : JobResult) : option JobState :=
  if str_is (status r) "queued" then Some Accepted
  else if str_is (status r) "timeout" then Some TimedOut
  else if str_is (status r) "COMPLETED" then Some Succeeded
  else if str_is (status r) "FAILED" then Some Failed
  else if str_is (status r) "error" then Some Failed
  else if str_is (status r) "CANCELLED" then Some Cancelled
  else if str_is (status r) "IN_QUEUE" then Some Running
  else if str_is (status r) "IN_PROGRESS" then Some Running
  else None.

(** [RunPodClient.get_job_status] *)
Definition get_job_status (jid : string) (r : Reply) : Outcome JobResult :=
  match reply r with
  | Raise e => Raise e
  | Ret response =>
    if negb (status_code response =? 200)%Z then
      Ret (mkJobResult false (Some jid) (Some "error") None
             (Some ("Failed to get status: " +:+ text response)) None)
    else
      let data := json response in
      Ret (mkJobResult (str_is (b_status data) "COMPLETED") (Some jid)
             (b_status data) (b_output data) (b_error data) None)
  end.

(** A status query answered 200 with one of COMPLETED, FAILED, CANCELLED. *)
Definition reports_terminal (r : Reply) : Prop :=
  exists resp, reply r = Ret resp /\ status_code resp = 200 /\
    terminal_status (b_status (json resp)) = true.

(** The clock at the top of the loop before the [k]-th status query, when
    the queries before it were each followed by a sleep. *)
Fixpoint clock_at (c : Client) (env : nat -> Reply) (start : Q) (k : nat) : Q :=
  match k with
  | O => start
  | S k' =>
    (clock_at c env start k' + latency (env k') + inject_Z (poll_interval c))%Q
  end.

End RunPod.

(** ** [src/integrations/google_drive.py]: the folder watcher *)
Module Drive.

(** [@dataclass class DriveFile] *)
Record DriveFile : Type := mkDriveFile {
  id : string;
  name : string;
  mime_type : string;
  size : option Z;
  created_time : option string;
  modified_time : option string
}.

(** The state of a watch session: the local [known_files] set, and the
    argument of every callback invocation so far, oldest first. *)
Record WatchState : Type := mkWatchState {
  known_files : gset string;
  calls : list (list DriveFile)
}.

(** [for f in files: known_files.add(f.id)] *)
Definition add_ids (files : list DriveFile) (known : gset string) : gset string :=
  foldl (fun s f => {[ id f ]} ∪ s) known files.

(** The initial scan of [watch_folder]: nothing is reported. *)
Definition initial_scan (initial_files : list DriveFile) : WatchState :=
  mkWatchState (add_ids initial_files ∅) [].

(** [[f for f in current_files if f.id not in known_files]] *)
Definition new_files (known : gset string) (current_files : list DriveFile)
    : list DriveFile :=
  filter (fun f => id f ∉ known) current_files.

(** The body of the [try] block of one loop iteration.  [listing] is what
    [list_image_files] returns or raises at this poll; [callback n fs] is
    what the callback does on its [n]-th invocation (counted from 0).  An
    exception of either is caught and logged by [except Exception]. *)
Definition poll_once (callback : nat -> list DriveFile -> Outcome unit)
    (st : WatchState) (listing : Outcome (list DriveFile)) : WatchState :=
  match listing with
  | Raise _ => st
  | Ret current_files =>
    let nf := new_files (known_files st) current_files in
    match nf with
    | [] => st
    | _ :: _ =>
      match callback (length (calls st)) nf with
      | Raise _ => mkWatchState (known_files st) (calls st ++ [nf])
      | Ret _ => mkWatchState (add_ids nf (known_files st)) (calls st ++ [nf])
      end
    end
  end.

(** One turn of the [while True] loop: is the stop event set at the top of
    the loop, and what the listing gives after the sleep. *)
Record Tick : Type := mkTick {
  stop_set : bool;
  listing : Outcome (list DriveFile)
}.

(** The loop over a finite schedule of turns.  The flag tells whether the
    loop left through [break]; it is [false] when the schedule ends with
    the watcher still running. *)
Fixpoint watch_loop (callback : nat -> list DriveFile -> Outcome unit)
    (ticks : list Tick) (st : WatchState) : WatchState * bool :=
  match ticks with
  | [] => (st, false)
  | t :: rest =>
    if stop_set t then (st, true)
    else watch_loop callback rest (poll_once callback st (listing t))
  end.

(** [GoogleDriveClient.watch_folder]: the initial listing is outside the
    [try] block, so its exception propagates. *)
Definition watch_folder (callback : nat -> list DriveFile -> Outcome unit)
    (initial : Outcome (list DriveFile)) (ticks : list Tick)
    : Outcome (WatchState * bool) :=
  match initial with
  | Raise e => Raise e
  | Ret initial_files => Ret (watch_loop callback ticks (initial_scan initial_files))
  end.

(** A turn of the loop that can change the outcome: the stop event is
    set, or the listing succeeds. *)
Definition effective (t : Tick) : bool := stop_set t || is_ret (listing t).

(** The state of a session in which every reported file is known and no
    identifier occurs in two calls. *)
Definition reported_once (st : WatchState) : Prop :=
  (forall fs f, fs ∈ calls st -> f ∈ fs -> id f ∈ known_files st) /\
  (forall i j fs_i fs_j f g,
     (i < j)%nat -> calls st !! i = Some fs_i -> calls st !! j = Some fs_j ->
     f ∈ fs_i -> g ∈ fs_j -> id f <> id g).

(** Downloads run against the Drive service and the local disk, the world
    of this section. *)
Section Transfers.

Context {World : Type}.

(** [download_file(file_id, destination)] as the batch helper calls it. *)
Variable download_file : string -> string -> World -> Outcome string * World.

(** [GoogleDriveClient.download_batch]: no [try] around the loop body. *)
Fixpoint download_batch (files : list DriveFile) (destination_dir : string)
    (w : World) : Outcome (list string) * World :=
  match files with
  | [] => (Ret [], w)
  | file :: rest =>
    let dest_path := destination_dir +:+ "/" +:+ name file in
    match download_file (id file) dest_path w with
    | (Raise e, w1) => (Raise e, w1)
    | (Ret _, w1) =>
      match download_batch rest destination_dir w1 with
      | (Raise e, w2) => (Raise e, w2)
      | (Ret downloaded, w2) => (Ret (dest_path :: downloaded), w2)
      end
    end
  end.

End Transfers.

End Drive.

(** ** [src/utils/image.py]: garment preparation *)
Module ImageUtil.

(** An opened image, as far as the preparation looks at it: [img.mode] and
    [img.size]. *)
Record Image : Type := mkImage {
  mode : string;
  width : Z;
  height : Z
}.

(** Pillow's [round_aspect(number, key)]:
    [max(min(floor(number), ceil(number), key=key), 1)]; on a tie [min]
    keeps its first argument. *)
Definition round_aspect (number : Q) (key : Z -> Q) : Z :=
  let lo := Qfloor number in
  let hi := Qceiling number in
  Z.max (if Qle_bool (key lo) (key hi) then lo else hi) 1.

(** The size Pillow's [Image.thumbnail((x, y))] resizes to, [None] when it
    leaves the image as it is: a thumbnail never enlarges. *)
Definition thumbnail_size (w h x y : Z) : option (Z * Z) :=
  if (w <=? x) && (h <=? y) then None
  else
    let aspect := (inject_Z w / inject_Z h)%Q in
    if Qle_bool aspect (inject_Z x / inject_Z y)%Q then
      Some (round_aspect (inject_Z y * aspect)%Q
              (fun n => Qabs (aspect - inject_Z n / inject_Z y))%Q, y)
    else
      Some (x, round_aspect (inject_Z x / aspect)%Q
                 (fun n => if (n =? 0)%Z then 0%Q
                           else Qabs (aspect - inject_Z x / inject_Z n))%Q).

(** [img.thumbnail(size, LANCZOS)] *)
Definition thumbnail (img : Image) (x y : Z) : Image :=
  match thumbnail_size (width img) (height img) x y with
  | None => img
  | Some (w', h') =>
    if (w' =? width img)%Z && (h' =? height img)%Z then img
    else mkImage (mode img) w' h'
  end.

(** [ImageProcessor.prepare_garment_image] on the opened image; the result
    is the image saved to [output_path]. *)
Definition prepare_garment_image (img : Image) (target_size : Z) : Image :=
  let img1 :=
    if String.eqb (mode img) "RGBA" then mkImage "RGB" (width img) (height img)
    else if negb (String.eqb (mode img) "RGB")
         then mkImage "RGB" (width img) (height img)
         else img in
  let img2 := thumbnail img1 target_size target_size in
  if negb (width img2 =? height img2)%Z
  then mkImage "RGB" target_size target_size
  else img2.

(** Python's [int(x)] on a float: truncation towards zero. *)
Definition py_int (q : Q) : Z := Z.quot (Qnum q) (Zpos (Qden q)).

(** The [crop_box] of [ImageProcessor.create_closeup] for an image of
    [w] x [h] pixels, as (left, top, right, bottom). *)
Definition crop_box (focus_region : string) (w h : Z) : Z * Z * Z * Z :=
  if String.eqb focus_region "upper" then
    (py_int (inject_Z w * (15 # 100)), py_int (inject_Z h * (1 # 10)),
     py_int (inject_Z w * (85 # 100)), py_int (inject_Z h * (5 # 10)))
  else if String.eqb focus_region "center" then
    (py_int (inject_Z w * (2 # 10)), py_int (inject_Z h * (25 # 100)),
     py_int (inject_Z w * (8 # 10)), py_int (inject_Z h * (75 # 100)))
  else
    (0, 0, w, py_int (inject_Z h * (5 # 10))).

(** [ImageProcessor.create_closeup] on the opened image: [img.crop(box)]
    has the size of the box. *)
Definition create_closeup (img : Image) (focus_region : string) : Image :=
  let '(x0, y0, x1, y1) :=
    crop_box focus_region (width img) (height img) in
  mkImage (mode img) (x1 - x0) (y1 - y0).

End ImageUtil.

(** ** The result dictionaries passed from the pipeline to the assembler *)

(** The [dict] that [submit_workflow_with_images], [process_single_garment],
    [run_batch] and [generate_catalog_from_images] build and that
    [create_catalog] reads with [.get].  Every key these functions write or
    read is a field; [None] is a key that is absent or holds [None], which
    [.get] does not tell apart. *)
Record ImageSet : Type := mkImageSet {
  d_success : option bool;
  d_error : option string;
  d_job_id : option string;
  d_full_body_path : option string;
  d_closeup_path : option string;
  d_output_path : option string;
  d_garment_name : option string;
  d_full_body : option string;
  d_closeup : option string;
  d_product_name : option string;
  d_product_code : option string
}.

Definition empty_dict : ImageSet :=
  mkImageSet None None None None None None None None None None None.

(** [r.get("success")] as a condition. *)
Definition get_success (r : ImageSet) : bool := default false (d_success r).

(** ** [src/catalog/assembler.py] and [src/catalog/templates.py] *)
Module Assembler.

Local Open Scope Q_scope.

(** [ModernMinimalistStyle] and [Spacing] defaults. *)
Definition page_width : Q := 59528 # 100.
Definition page_height : Q := 84189 # 100.
Definition page_margin : Q := 50.
Definition image_gap : Q := 15.
Definition footer_height : Q := 60.
Definition header_height : Q := 40.
Definition heading_font : string := "Helvetica-Bold".
Definition body_font : string := "Helvetica".
Definition accent_font : string := "Helvetica-Oblique".

(** [CatalogAssembler] fields and the [CatalogConfig] it holds. *)
Record Config : Type := mkConfig {
  brand : string;
  logo_path : option string;
  tagline : string;
  catalog_title : string;
  include_page_numbers : bool
}.

(** What the assembler reads from outside: [os.path.exists] on a string,
    [ImageReader(path).getSize()] (which raises on an unreadable file) and
    the canvas's [stringWidth(text, font, size)]. *)
Record Env : Type := mkEnv {
  path_exists : string -> bool;
  image_size : string -> Outcome (Z * Z);
  string_width : string -> string -> Z -> Q
}.

Record Rect : Type := mkRect { rx : Q; ry : Q; rw : Q; rh : Q }.

(** The marks a page receives, in drawing order. *)
Inductive Op : Type :=
| FillRect (x y w h : Q)
| Line (x1 y1 x2 y2 : Q)
| DrawString (x y : Q) (s : string)
| DrawImage (path : string) (r : Rect).

(** Which method closed the page with [showPage]. *)
Inductive PageKind : Type := Cover | Product | BackCover.

#[global] Instance PageKind_eq_dec : EqDecision PageKind.
Proof. solve_decision. Defined.

Record Page : Type := mkPage { kind : PageKind; ops : list Op }.

(** The reportlab canvas: the file it will write, the marks of the page in
    progress, the pages closed so far, and whether [save()] was called. *)
Record Canvas : Type := mkCanvas {
  filename : string;
  cur : list Op;
  pages : list Page;
  saved : bool
}.

Definition new_canvas (output_path : string) : Canvas :=
  mkCanvas output_path [] [] false.

Definition draw (o : Op) (c : Canvas) : Canvas :=
  mkCanvas (filename c) (cur c ++ [o]) (pages c) (saved c).

Definition showPage (k : PageKind) (c : Canvas) : Canvas :=
  mkCanvas (filename c) [] (pages c ++ [mkPage k (cur c)]) (saved c).

Definition save (c : Canvas) : Canvas :=
  mkCanvas (filename c) (cur c) (pages c) true.

(** [os.path.exists(p)]: on [None] the call raises [TypeError]. *)
Definition os_path_exists (env : Env) (p : option string) : Outcome bool :=
  match p with
  | Some s => Ret (path_exists env s)
  | None =>
    Raise (Exn "TypeError"
      "stat: path should be string, bytes, os.PathLike or integer, not NoneType")
  end.

(** [p and os.path.exists(p)] as a condition: the existence test runs only
    on a non-empty string. *)
Definition and_exists (env : Env) (p : option string) : bool :=
  match p with
  | Some s => negb (String.eqb s "") && path_exists env s
  | None => false
  end.

(** The rectangle [_draw_single_image] computes for an image of
    [img_width] x [img_height] pixels in the region at [(x, y)] of size
    [width] x [height]; [None] when a division raises [ZeroDivisionError]. *)
Definition layout_single (img_width img_height : Z) (x y width height : Q)
    : option Rect :=
  if (img_height =? 0)%Z then None
  else
    let aspect := inject_Z img_width / inject_Z img_height in
    if Qeq_bool height 0 then None
    else if negb (Qle_bool (width / height) aspect) then
      let draw_height := height * (9 # 10) in
      let draw_width := draw_height * aspect in
      Some (mkRect (x + (width - draw_width) / 2)
                   (y + (height - draw_height) / 2) draw_width draw_height)
    else
      let draw_width := width * (8 # 10) in
      if Qeq_bool aspect 0 then None
      else
        let draw_height := draw_width / aspect in
        Some (mkRect (x + (width - draw_width) / 2)
                     (y + (height - draw_height) / 2) draw_width draw_height).

(** [CatalogAssembler._draw_single_image]: a missing file is logged and
    skipped; anything raised while reading or placing the image is caught
    and logged; the existence test itself is outside the [try]. *)
Definition _draw_single_image (env : Env) (image_path : option string)
    (x y width height : Q) (c : Canvas) : Outcome Canvas :=
  match os_path_exists env image_path, image_path with
  | Raise e, _ => Raise e
  | Ret _, None => Ret c
  | Ret false, Some _ => Ret c
  | Ret true, Some p =>
    match image_size env p with
    | Raise _ => Ret c
    | Ret (img_width, img_height) =>
      match layout_single img_width img_height x y width height with
      | None => Ret c
      | Some r => Ret (draw (DrawImage p r) c)
      end
    end
  end.

(** [CatalogAssembler._draw_split_layout] *)
Definition _draw_split_layout (env : Env) (full_body_path closeup_path : option string)
    (x y width height : Q) (c : Canvas) : Outcome Canvas :=
  let gap := image_gap in
  let left_width := width * (58 # 100) in
  let right_width := width * (38 # 100) in
  match _draw_single_image env full_body_path x y left_width height c with
  | Raise e => Raise e
  | Ret c1 =>
    _draw_single_image env closeup_path (x + left_width + gap)
      (y + height * (2 # 10)) right_width (height * (6 # 10)) c1
  end.

(** [CatalogAssembler._draw_page_header] *)
Definition _draw_page_header (cfg : Config) (c : Canvas) : Canvas :=
  let w := page_width in
  let h := page_height in
  let margin := page_margin in
  draw (Line margin (h - margin - 10) (w - margin) (h - margin - 10))
    (draw (DrawString margin (h - margin + 5) (brand cfg)) c).

(** [CatalogAssembler._draw_product_info] *)
Definition _draw_product_info (product_name : string)
    (product_code : option string) (c : Canvas) : Canvas :=
  let margin := page_margin in
  let c1 := draw (DrawString margin (margin + 30) product_name) c in
  if truthy_str product_code
  then draw (DrawString margin (margin + 12) ("Code: " +:+ fmt_opt product_code)) c1
  else c1.

(** [CatalogAssembler._draw_page_footer] *)
Definition _draw_page_footer (env : Env) (cfg : Config) (page_number : nat)
    (c : Canvas) : Canvas :=
  let w := page_width in
  let margin := page_margin in
  if include_page_numbers cfg then
    let page_text := pretty page_number in
    let text_w := string_width env page_text body_font 10 in
    draw (DrawString ((w - text_w) / 2) (margin - 10) page_text) c
  else c.

(** [CatalogAssembler._create_product_page] *)
Definition _create_product_page (env : Env) (cfg : Config)
    (full_body closeup : option string) (product_name : string)
    (product_code : option string) (page_number : nat) (c : Canvas)
    : Outcome Canvas :=
  let w := page_width in
  let h := page_height in
  let margin := page_margin in
  let c1 := _draw_page_header cfg (draw (FillRect 0 0 w h) c) in
  let content_top := h - margin - header_height in
  let content_bottom := margin + footer_height in
  let content_height := content_top - content_bottom in
  let drawn :=
    if and_exists env closeup then
      _draw_split_layout env full_body closeup
        margin content_bottom (w - 2 * margin) content_height c1
    else
      _draw_single_image env full_body
        margin content_bottom (w - 2 * margin) content_height c1 in
  match drawn with
  | Raise e => Raise e
  | Ret c2 =>
    Ret (showPage Product
           (_draw_page_footer env cfg page_number
              (_draw_product_info product_name product_code c2)))
  end.

(** The logo of the cover and of the back cover: drawn when the file exists
    and can be read. *)
Definition draw_logo (env : Env) (cfg : Config) (r : Rect) (c : Canvas) : Canvas :=
  if and_exists env (logo_path cfg) then
    match image_size env (fmt_opt (logo_path cfg)) with
    | Raise _ => c
    | Ret _ => draw (DrawImage (fmt_opt (logo_path cfg)) r) c
    end
  else c.

Definition centered_text (env : Env) (txt font : string) (size : Z) (y : Q)
    (c : Canvas) : Canvas :=
  draw (DrawString ((page_width - string_width env txt font size) / 2) y txt) c.

(** [CatalogAssembler._create_cover_page] *)
Definition _create_cover_page (env : Env) (cfg : Config) (c : Canvas) : Canvas :=
  let w := page_width in
  let h := page_height in
  let c1 := draw (FillRect 0 (h - 8) w 8) (draw (FillRect 0 0 w h) c) in
  let c2 := draw_logo env cfg (mkRect ((w - 180) / 2) (h - 200) 180 90) c1 in
  let c3 :=
    if negb (and_exists env (logo_path cfg))
    then centered_text env (brand cfg) heading_font 72 (h - 180) c2
    else c2 in
  let c4 := centered_text env (tagline cfg) accent_font 18 (h - 240) c3 in
  let c5 := centered_text env (catalog_title cfg) body_font 24 (h / 2 + 50) c4 in
  let c6 := draw (Line (w / 2 - 100) (h / 2) (w / 2 + 100) (h / 2)) c5 in
  let c7 := centered_text env "TEEN BOYS COLLECTION" body_font 14 100 c6 in
  showPage Cover c7.

(** [CatalogAssembler._create_back_cover] *)
Definition _create_back_cover (env : Env) (cfg : Config) (c : Canvas) : Canvas :=
  let w := page_width in
  let h := page_height in
  let c1 := draw (FillRect 0 0 w h) c in
  let c2 := draw_logo env cfg (mkRect ((w - 120) / 2) (h / 2 + 20) 120 60) c1 in
  let c3 := centered_text env (brand cfg) heading_font 36 (h / 2 - 30) c2 in
  let c4 := centered_text env "www.bono.com | @bono_official" body_font 12 60 c3 in
  showPage BackCover c4.

(** [image_set.get('full_body') or image_set.get('output_path')] *)
Definition primary_image (image_set : ImageSet) : option string :=
  py_or (d_full_body image_set) (d_output_path image_set).

(** The loop [for i, image_set in enumerate(images)] of [create_catalog],
    from index [i] on. *)
Fixpoint product_pages (env : Env) (cfg : Config) (images : list ImageSet)
    (i : nat) (c : Canvas) : Outcome Canvas :=
  match images with
  | [] => Ret c
  | image_set :: rest =>
    match _create_product_page env cfg
            (primary_image image_set)
            (d_closeup image_set)
            (default ("Style #" +:+ pretty (i + 1)%nat) (d_product_name image_set))
            (d_product_code image_set)
            (i + 1)%nat c with
    | Raise e => Raise e
    | Ret c1 => product_pages env cfg rest (S i) c1
    end
  end.

(** [CatalogAssembler.create_catalog]: the canvas after [save()], or the
    exception that left it unsaved. *)
Definition create_catalog (env : Env) (cfg : Config) (images : list ImageSet)
    (output_path : string) (include_cover : bool) : Outcome Canvas :=
  let c0 := new_canvas output_path in
  let c1 := if include_cover then _create_cover_page env cfg c0 else c0 in
  match product_pages env cfg images 0%nat c1 with
  | Raise e => Raise e
  | Ret c2 =>
    let c3 := if include_cover then _create_back_cover env cfg c2 else c2 in
    Ret (save c3)
  end.

(** The product pages of a document. *)
Definition product_page_count (c : Canvas) : nat :=
  length (filter (fun p => kind p = Product) (pages c)).

(** [c'] is [c] with images of existing files added to the page in
    progress, and nothing else changed. *)
Definition only_adds_images (env : Env) (c c' : Canvas) : Prop :=
  filename c' = filename c /\ pages c' = pages c /\ saved c' = saved c /\
  exists imgs, cur c' = (cur c ++ imgs)%list /\
    forall o, o ∈ imgs -> exists q r, o = DrawImage q r /\ path_exists env q = true.

End Assembler.

(** ** Strings and paths as the pipeline uses them (ASCII) *)

Definition upper_ascii (c : ascii) : ascii :=
  let n := nat_of_ascii c in
  if (97 <=? n)%nat && (n <=? 122)%nat then ascii_of_nat (n - 32) else c.

Definition lower_ascii (c : ascii) : ascii :=
  let n := nat_of_ascii c in
  if (65 <=? n)%nat && (n <=? 90)%nat then ascii_of_nat (n + 32) else c.

Definition is_alpha (c : ascii) : bool :=
  let n := nat_of_ascii c in
  ((97 <=? n)%nat && (n <=? 122)%nat) || ((65 <=? n)%nat && (n <=? 90)%nat).

(** [str.upper()], [str.lower()] *)
Fixpoint upper (s : string) : string :=
  match s with
  | EmptyString => EmptyString
  | String c s' => String (upper_ascii c) (upper s')
  end.

Fixpoint lower (s : string) : string :=
  match s with
  | EmptyString => EmptyString
  | String c s' => String (lower_ascii c) (lower s')
  end.

(** [str.replace(a, b)] for single characters. *)
Fixpoint replace_char (a b : ascii) (s : string) : string :=
  match s with
  | EmptyString => EmptyString
  | String c s' => String (if Ascii.eqb c a then b else c) (replace_char a b s')
  end.

(** [str.title()]: a letter that follows a letter is lowered, any other
    letter is raised. *)
Fixpoint title_from (after_letter : bool) (s : string) : string :=
  match s with
  | EmptyString => EmptyString
  | String c s' =>
    String (if after_letter then lower_ascii c else upper_ascii c)
           (title_from (is_alpha c) s')
  end.

Definition title (s : string) : string := title_from false s.

(** [s.endswith(sfx)]; a name matches the glob pattern [*sfx] exactly when
    it ends with [sfx]. *)
Fixpoint ends_with (sfx s : string) : bool :=
  String.eqb sfx s ||
  match s with
  | EmptyString => false
  | String _ s' => ends_with sfx s'
  end.

(** The last component of a path: what follows its last [/]. *)
Fixpoint after_last (sep : ascii) (acc s : string) : string :=
  match s with
  | EmptyString => acc
  | String c s' =>
    if Ascii.eqb c sep then after_last sep s' s' else after_last sep acc s'
  end.

(** [Path(p).name] *)
Definition path_name (p : string) : string := after_last "/" p p.

(** [name.rfind(ch)], scanning from index [i] with [acc] the last hit. *)
Fixpoint rfind (ch : ascii) (s : string) (i : nat) (acc : option nat) : option nat :=
  match s with
  | EmptyString => acc
  | String c s' => rfind ch s' (S i) (if Ascii.eqb c ch then Some i else acc)
  end.

(** [Path(p).stem]: the name up to its last dot, when that dot is neither
    the first nor the last character. *)
Definition path_stem (p : string) : string :=
  let name := path_name p in
  match rfind "." name 0 None with
  | Some i =>
    if (0 <? i)%nat && (i <? String.length name - 1)%nat
    then substring 0 i name
    else name
  | None => name
  end.

(** [Path(a) / b] *)
Definition path_join (a b : string) : string := a +:+ "/" +:+ b.

(** [sorted] on paths of one directory. *)
Fixpoint insert_sorted (x : string) (l : list string) : list string :=
  match l with
  | [] => [x]
  | y :: l' => if String.leb x y then x :: l else y :: insert_sorted x l'
  end.

Definition sorted (l : list string) : list string :=
  fold_right insert_sorted [] l.

(** ** [pipeline.py]: the batch orchestrator *)
Module Pipeline.

(** [ImageProcessor.SUPPORTED_FORMATS], in the order the loop of
    [run_batch] visits it. *)
Definition SUPPORTED_FORMATS : list string := [".png"; ".jpg"; ".jpeg"; ".webp"].

(** [input_path.glob(f"*{sfx}")] on a case-sensitive file system: the
    entries of the directory whose name ends with [sfx], as paths. *)
Definition glob (input_dir : string) (names : list string) (sfx : string)
    : list string :=
  map (path_join input_dir) (List.filter (ends_with sfx) names).

(** The discovery loop of [run_batch]. *)
Definition find_images (input_dir : string) (names : list string) : list string :=
  flat_map (fun ext => (glob input_dir names ext ++ glob input_dir names (upper ext))%list)
           SUPPORTED_FORMATS.

(** A file name has a supported extension, compared without regard to
    case. *)
Definition supported_name (name : string) : bool :=
  existsb (fun ext => ends_with ext (lower name)) SUPPORTED_FORMATS.

(** The calls that leave the process, in the order they are made. *)
Inductive Event : Type :=
| EvPrepare (src dst : string)
| EvLoadWorkflow
| EvEncode (path : string)
| EvSubmit (garment_b64 : string)
| EvDecode (path : string)
| EvCloseup (src dst : string)
| EvSavePdf (path : string) (pages : list Assembler.Page).

(** [@dataclass] of the batch report [dict]; a key the report does not
    carry is [None]. *)
Record Report : Type := mkReport {
  success : bool;
  error : option string;
  total : option nat;
  processed : option nat;
  failed : option nat;
  pdf_path : option string;
  images_dir : option string;
  results : option (list ImageSet)
}.

Section WithWorld.

(** Everything outside the process (the disk, the remote endpoint). *)
Context {World : Type}.

Record St : Type := mkSt { world : World; trace : list Event }.

(** A computation that reads and changes the world and may raise. *)
Definition IO (A : Type) : Type := St -> Outcome A * St.

Definition ret {A} (a : A) : IO A := fun st => (Ret a, st).

Definition bind {A B} (m : IO A) (k : A -> IO B) : IO B :=
  fun st =>
    match m st with
    | (Ret a, st1) => k a st1
    | (Raise e, st1) => (Raise e, st1)
    end.

(** An external call: it is recorded in the trace, then run on the world. *)
Definition call {A} (ev : Event) (f : World -> Outcome A * World) : IO A :=
  fun st =>
    let (o, w) := f (world st) in
    (o, mkSt w (trace st ++ [ev])).

(** The collaborators of the pipeline.  Each may raise and may change the
    world; [ext_listdir] and [ext_fs] only read it. *)
Record Externals : Type := mkExternals {
  ext_listdir : World -> string -> list string;
  ext_fs : World -> Assembler.Env;
  ext_prepare : string -> string -> World -> Outcome unit * World;
  ext_load_workflow : World -> Outcome unit * World;
  ext_encode_image : string -> World -> Outcome string * World;
  ext_submit_job : string -> World -> Outcome RunPod.JobResult * World;
  ext_decode_image : string -> string -> World -> Outcome unit * World;
  ext_create_closeup : string -> string -> World -> Outcome unit * World
}.

Variable ext : Externals.

(** One of the three [if key in output:] blocks of
    [submit_workflow_with_images]. *)
Definition decode_output (output : gmap string string) (key : string)
    (output_dir : string) (jid : option string) : IO (option string) :=
  match output !! key with
  | None => ret None
  | Some b64 =>
    let path := path_join output_dir (key +:+ "_" +:+ fmt_opt jid +:+ ".png") in
    bind (call (EvDecode path) (ext_decode_image ext b64 path))
         (fun _ => ret (Some path))
  end.

(** [RunPodClient.submit_workflow_with_images] *)
Definition submit_workflow_with_images (garment_image_path output_dir : string)
    : IO ImageSet :=
  bind (call EvLoadWorkflow (ext_load_workflow ext)) (fun _ =>
  bind (call (EvEncode garment_image_path)
          (ext_encode_image ext garment_image_path)) (fun garment_b64 =>
  bind (call (EvSubmit garment_b64) (ext_submit_job ext garment_b64)) (fun result =>
  if negb (RunPod.success result) then
    ret (mkImageSet (Some false) (RunPod.error result)
           None None None None None None None None None)
  else
    let output := default ∅ (RunPod.output result) in
    let jid := RunPod.job_id result in
    bind (decode_output output "full_body" output_dir jid) (fun full_body_path =>
    bind (decode_output output "closeup" output_dir jid) (fun closeup_path =>
    bind (decode_output output "final" output_dir jid) (fun output_path =>
    ret (mkImageSet (Some true) None jid full_body_path closeup_path output_path
           None None None None None))))))).

Definition set_closeup_path (r : ImageSet) (p : string) : ImageSet :=
  mkImageSet (d_success r) (d_error r) (d_job_id r) (d_full_body_path r)
    (Some p) (d_output_path r) (d_garment_name r) (d_full_body r)
    (d_closeup r) (d_product_name r) (d_product_code r).

Definition set_garment_name (r : ImageSet) (n : string) : ImageSet :=
  mkImageSet (d_success r) (d_error r) (d_job_id r) (d_full_body_path r)
    (d_closeup_path r) (d_output_path r) (Some n) (d_full_body r)
    (d_closeup r) (d_product_name r) (d_product_code r).

(** [FashionCatalogPipeline.process_single_garment] *)
Definition process_single_garment (garment_path output_dir : string)
    : IO ImageSet :=
  let prepared_path :=
    path_join (path_join output_dir "temp") (path_name garment_path) in
  bind (call (EvPrepare garment_path prepared_path)
          (ext_prepare ext garment_path prepared_path)) (fun _ =>
  bind (call EvLoadWorkflow (ext_load_workflow ext)) (fun _ =>
  bind (submit_workflow_with_images prepared_path output_dir) (fun result =>
  if get_success result && truthy_str (d_full_body_path result) then
    let closeup_path :=
      path_join output_dir ("closeup_" +:+ path_stem garment_path +:+ ".png") in
    bind (call (EvCloseup (fmt_opt (d_full_body_path result)) closeup_path)
            (ext_create_closeup ext (fmt_opt (d_full_body_path result))
               closeup_path))
         (fun _ => ret (set_closeup_path result closeup_path))
  else ret result))).

(** The body of the [try] / [except Exception] of [run_batch]: what is
    appended to [results] for one item. *)
Definition item_record (garment_path : string) (o : Outcome ImageSet) : ImageSet :=
  match o with
  | Ret result => set_garment_name result (path_stem garment_path)
  | Raise e =>
    mkImageSet (Some false) (Some (exn_msg e)) None None None None
      (Some (path_stem garment_path)) None None None None
  end.

(** The loop [for garment_path in image_files] of [run_batch]: an
    exception of one item is caught and recorded, and the loop goes on. *)
Fixpoint process_all (image_files : list string) (images_dir : string)
    (st : St) : list ImageSet * St :=
  match image_files with
  | [] => ([], st)
  | garment_path :: rest =>
    let (o, st1) := process_single_garment garment_path images_dir st in
    let (rs, st2) := process_all rest images_dir st1 in
    (item_record garment_path o :: rs, st2)
  end.

(** The configuration [run_batch] reads: the brand of the file name and
    the assembler. *)
Record PipelineConfig : Type := mkPipelineConfig {
  cfg_brand : string;
  cfg_assembler : Assembler.Config
}.

Variable cfg : PipelineConfig.

(** [FashionCatalogPipeline.run_batch] *)
Definition run_batch (input_dir output_dir : string) (generate_pdf : bool)
    : IO Report :=
  fun st =>
    let image_files := find_images input_dir (ext_listdir ext (world st) input_dir) in
    match image_files with
    | [] =>
      (Ret (mkReport false (Some "No images found") None None None None None None),
       st)
    | _ :: _ =>
      let images_dir := path_join output_dir "HighRes_Images" in
      let (results, st1) := process_all image_files images_dir st in
      let successful_results := List.filter get_success results in
      let report pdf :=
        mkReport true None (Some (length image_files))
          (Some (length (List.filter get_success results)))
          (Some (length (List.filter (fun r => negb (get_success r)) results)))
          pdf (Some images_dir) (Some results) in
      match generate_pdf, successful_results with
      | true, _ :: _ =>
        let pdf_path :=
          path_join output_dir ("Final_Catalog_" +:+ cfg_brand cfg +:+ ".pdf") in
        match Assembler.create_catalog (ext_fs ext (world st1))
                (cfg_assembler cfg) successful_results pdf_path true with
        | Raise e => (Raise e, st1)
        | Ret canvas =>
          (Ret (report (Some pdf_path)),
           mkSt (world st1)
                (trace st1 ++ [EvSavePdf pdf_path (Assembler.pages canvas)]))
        end
      | _, _ => (Ret (report None), st1)
      end
    end.

(** [FashionCatalogPipeline.generate_catalog_from_images] *)
Definition generate_catalog_from_images (images_dir output_path : string)
    : IO string :=
  fun st =>
    let files := sorted (glob images_dir (ext_listdir ext (world st) images_dir) ".png") in
    let images :=
      map (fun img_file =>
             mkImageSet None None None None None None None
               (Some img_file) None
               (Some (title (replace_char "_" " " (path_stem img_file)))) None)
          files in
    match images with
    | [] => (Raise (Exn "ValueError" ("No images found in " +:+ images_dir)), st)
    | _ :: _ =>
      match Assembler.create_catalog (ext_fs ext (world st))
              (cfg_assembler cfg) images output_path true with
      | Raise e => (Raise e, st)
      | Ret canvas =>
        (Ret output_path,
         mkSt (world st)
              (trace st ++ [EvSavePdf output_path (Assembler.pages canvas)]))
      end
    end.

(** Every run of [m] only appends events to the trace, and each appended
    event satisfies [P]. *)
Definition emits (P : Event -> Prop) {A} (m : IO A) : Prop :=
  forall st, exists evs,
    trace (m st).2 = (trace st ++ evs)%list /\ Forall P evs.

End WithWorld.

(** The events of processing an item: everything but saving the document. *)
Definition item_event (e : Event) : Prop :=
  match e with EvSavePdf _ _ => False | _ => True end.

(** The events after the submission of an item: decoding the outputs and
    cutting the close-up. *)
Definition output_event (e : Event) : Prop :=
  match e with EvDecode _ | EvCloseup _ _ => True | _ => False end.

Arguments St : clear implicits.
Arguments Externals : clear implicits.

End Pipeline.

(** ** [src/config.py]: validation of the configuration *)
Module Config.

(** The settings [Config.validate] looks at: [runpod.api_key],
    [runpod.endpoint_id], [google_drive.input_folder_id] and
    [google_drive.output_folder_id]. *)
Record Config : Type := mkConfig {
  api_key : string;
  endpoint_id : string;
  input_folder_id : string;
  output_folder_id : string
}.

(** [sep.join(items)] *)
Fixpoint join (sep : string) (items : list string) : string :=
  match items with
  | [] => ""
  | [x] => x
  | x :: rest => x +:+ sep +:+ join sep rest
  end.

(** [if not value: errors.append(message)] *)
Definition require (value message : string) : list string :=
  if String.eqb value "" then [message] else [].

(** The [errors] list of [Config.validate]. *)
Definition validation_errors (cfg : Config) : list string :=
  (require (api_key cfg) "RUNPOD_API_KEY is required"
   ++ require (endpoint_id cfg) "RUNPOD_ENDPOINT_ID is required"
   ++ require (input_folder_id cfg) "GOOGLE_DRIVE_INPUT_FOLDER_ID is required"
   ++ require (output_folder_id cfg) "GOOGLE_DRIVE_OUTPUT_FOLDER_ID is required")%list.

(** [Config.validate] *)
Definition validate (cfg : Config) : Outcome bool :=
  match validation_errors cfg with
  | [] => Ret true
  | errors =>
    Raise (Exn "ValueError" ("Configuration errors: " +:+ join ", " errors))
  end.

End Config.

(** ** [src/generators/teen_boy.py]: pose rotation *)
Module TeenBoy.

(** [TeenBoyGenerator.POSE_VARIATIONS] *)
Definition POSE_VARIATIONS : list string :=
  [ "standing straight with hands in pockets, relaxed confident pose";
    "slight side angle, one hand adjusting collar, casual cool vibe";
    "arms crossed, looking at camera with friendly smile";
    "hands at sides, walking pose, dynamic movement";
    "leaning slightly, hands behind back, editorial pose" ].

(** [items[k]] on a Python list: a negative index counts from the end, an
    index out of range raises [IndexError]. *)
Definition py_getitem (items : list string) (k : Z) : Outcome string :=
  let n := Z.of_nat (length items) in
  let k' := if k <? 0 then n + k else k in
  if (0 <=? k') && (k' <? n) then
    match items !! Z.to_nat k' with
    | Some x => Ret x
    | None => Raise (Exn "IndexError" "list index out of range")
    end
  else Raise (Exn "IndexError" "list index out of range").

Section Prompt.

(** [TeenBoyGenerator.POSITIVE_PROMPT], whose text plays no part here. *)
Variable POSITIVE_PROMPT : string.

(** [TeenBoyGenerator.get_model_prompt_with_pose]: the second argument and
    the second component of the result are [self._pose_index] before and
    after the call. *)
Definition get_model_prompt_with_pose (pose_index : option Z) (_pose_index : Z)
    : Outcome string * Z :=
  let n := Z.of_nat (length POSE_VARIATIONS) in
  let '(index, next) :=
    match pose_index with
    | None => (_pose_index, (_pose_index + 1) mod n)
    | Some i => (i, _pose_index)
    end in
  match py_getitem POSE_VARIATIONS (index mod n) with
  | Ret pose => (Ret (POSITIVE_PROMPT +:+ ", " +:+ pose), next)
  | Raise e => (Raise e, next)
  end.

(** [calls] successive calls without an argument: the prompts returned,
    and [self._pose_index] at the end. *)
Fixpoint rotate (calls : nat) (_pose_index : Z) : list (Outcome string) * Z :=
  match calls with
  | O => ([], _pose_index)
  | S calls' =>
    let '(prompt, next) := get_model_prompt_with_pose None _pose_index in
    let '(prompts, final) := rotate calls' next in
    (prompt :: prompts, final)
  end.

End Prompt.

End TeenBoy.

(** * Concrete runs *)

(** ** A job that stays in progress, polled by a client with
    [timeout = 10] and [poll_interval = 5] *)
Module RunPodRuns.
Import RunPod.

Definition client_10_5 : Client := mkClient 10 5.

Definition accepted_post : Reply :=
  mkReply 0 (Ret (mkResponse 200 "" (mkBody (Some "job-1") None None None))).

Definition in_progress (seconds : Q) : Reply :=
  mkReply seconds
    (Ret (mkResponse 200 "" (mkBody None (Some "IN_PROGRESS") None None))).

(** Every status query takes three seconds to answer. *)
Definition slow_env : nat -> Reply := fun _ => in_progress 3.

(** The connection drops on every status query: [client.get] raises. *)
Definition connect_error : exn := Exn "ConnectError" "All connection attempts failed".

Definition broken_env : nat -> Reply := fun _ => mkReply 0 (Raise connect_error).

(** The endpoint answers every status query with a 503 after one second. *)
Definition unavailable_env : nat -> Reply :=
  fun _ => mkReply 1 (Ret (mkResponse 503 "Service Unavailable"
                             (mkBody None None None None))).

End RunPodRuns.

(** ** A watched folder with three images, to which two are added *)
Module DriveRuns.
Import Drive.

Definition png (i : string) : DriveFile :=
  mkDriveFile i (i +:+ ".png") "image/png" None None None.

Definition existing : list DriveFile := [png "a"; png "b"; png "c"].

Definition arrived : list DriveFile := [png "d"; png "e"].

Definition quiet_callback : nat -> list DriveFile -> Outcome unit :=
  fun _ _ => Ret tt.

(** A callback whose batch fails, as [on_new_files] does when a download
    fails. *)
Definition failing_callback : nat -> list DriveFile -> Outcome unit :=
  fun _ _ => Raise (Exn "HttpError" "download failed").

End DriveRuns.

(** ** Images and a bare file system *)
Module ImageRuns.

(** A square RGB garment photo of 500 x 500 pixels. *)
Definition small_square : ImageUtil.Image := ImageUtil.mkImage "RGB" 500 500.

(** A landscape photo of 2000 x 1000 pixels stored as [/img/wide.png], the
    only file on disk. *)
Definition wide_env : Assembler.Env :=
  Assembler.mkEnv
    (fun p => String.eqb p "/img/wide.png")
    (fun p => if String.eqb p "/img/wide.png" then Ret (2000, 1000)
              else Raise (Exn "OSError" "cannot identify image file"))
    (fun _ _ _ => 0%Q).

Definition bono_config : Assembler.Config :=
  Assembler.mkConfig "BONO" None "Streetwear for the Next Generation"
    "Collection 2024" true.

End ImageRuns.

(** ** Batches over a disk *)
Module PipelineRuns.
Import Pipeline.

(** The world of these runs is the set of files on disk. *)
Definition disk_env (disk : gset string) : Assembler.Env :=
  Assembler.mkEnv
    (fun p => bool_decide (p ∈ disk))
    (fun p => if bool_decide (p ∈ disk) then Ret (1024, 1024)
              else Raise (Exn "OSError" "cannot open image"))
    (fun _ _ _ => 0%Q).

(** The input directory [/in] lists [names]; a source for which [corrupt]
    holds cannot be opened by the image library; the endpoint completes
    every job with [remote_output]; every file written lands on disk. *)
Definition disk_ext (names : list string) (corrupt : string -> bool)
    (remote_output : gmap string string) : Externals (gset string) :=
  mkExternals
    (fun _ dir => if String.eqb dir "/in" then names else [])
    disk_env
    (fun src dst disk =>
       if corrupt src
       then (Raise (Exn "UnidentifiedImageError"
                      ("cannot identify image file " +:+ src)), disk)
       else (Ret tt, {[ dst ]} ∪ disk))
    (fun disk => (Ret tt, disk))
    (fun _ disk => (Ret "Z2FybWVudA==", disk))
    (fun _ disk =>
       (Ret (RunPod.mkJobResult true (Some "job-1") (Some "COMPLETED")
               (Some remote_output) None (Some 42%Q)), disk))
    (fun _ path disk => (Ret tt, {[ path ]} ∪ disk))
    (fun _ dst disk => (Ret tt, {[ dst ]} ∪ disk)).

Definition bono_pipeline : PipelineConfig :=
  mkPipelineConfig "bono" ImageRuns.bono_config.

Definition two_photos : list string := ["a.png"; "b.png"].

Definition start : St (gset string) :=
  mkSt {[ "/in/a.png"; "/in/b.png" ]} [].

(** The first photo cannot be opened. *)
Definition a_is_corrupt (src : string) : bool := String.eqb src "/in/a.png".

Definition all_corrupt (src : string) : bool := true.

(** The workflow returns the full-body render only. *)
Definition full_body_only : gmap string string := {[ "full_body" := "cmVuZGVy" ]}.

(** The workflow returns the full-body render and a final image. *)
Definition full_body_and_final : gmap string string :=
  <[ "final" := "ZmluYWw=" ]> full_body_only.

(** A directory without images. *)
Definition no_photos : list string := ["notes.txt"; "README.md"; "photo.gif"].

End PipelineRuns.

(** ** Further runs of the job client *)
Module RunPodMoreRuns.
Import RunPod RunPodRuns.

Definition completed (seconds : Q) : Reply :=
  mkReply seconds
    (Ret (mkResponse 200 ""
            (mkBody None (Some "COMPLETED") (Some {[ "final" := "ZmluYWw=" ]}) None))).

(** The job is in progress at the first query and completed at the
    second; every query takes one second. *)
Definition done_at_second : nat -> Reply :=
  fun i => if (i <? 1)%nat then in_progress 1 else completed 1.

(** The submission takes two seconds to be accepted. *)
Definition slow_post : Reply :=
  mkReply 2 (Ret (mkResponse 200 "" (mkBody (Some "job-1") None None None))).

End RunPodMoreRuns.

(** ** Downloads from a folder *)
Module DriveMoreRuns.
Import Drive DriveRuns.

(** The world is the list of files downloaded so far; the download of the
    file with id [b] fails. *)
Definition flaky_download (file_id destination : string) (done : list string)
    : Outcome string * list string :=
  if String.eqb file_id "b"
  then (Raise (Exn "HttpError" "download failed"), done)
  else (Ret destination, (done ++ [destination])%list).

End DriveMoreRuns.

(** ** A disk with a portrait render and a landscape close-up *)
Module AssemblerMoreRuns.

Definition two_images_env : Assembler.Env :=
  Assembler.mkEnv
    (fun p => String.eqb p "/img/full.png" || String.eqb p "/img/closeup.png")
    (fun p => if String.eqb p "/img/full.png" then Ret (1024, 1536)
              else if String.eqb p "/img/closeup.png" then Ret (700, 400)
              else Raise (Exn "OSError" "cannot identify image file"))
    (fun _ _ _ => 0%Q).

(** The logo file exists but is not an image. *)
Definition broken_logo_env : Assembler.Env :=
  Assembler.mkEnv
    (fun p => String.eqb p "/assets/logo.png")
    (fun _ => Raise (Exn "OSError" "cannot identify image file"))
    (fun _ _ _ => 0%Q).

Definition logo_config : Assembler.Config :=
  Assembler.mkConfig "BONO" (Some "/assets/logo.png")
    "Streetwear for the Next Generation" "Collection 2024" true.

End AssemblerMoreRuns.

(** * Properties of the remote job client *)

Section PollLoop.
Import RunPod.

Variable c : Client.
Variable env : nat -> Reply.
Variable jid : option string.
Variable start : Q.

Lemma timed_out_true now :
  timed_out c start now = true <-> (inject_Z (timeout c) < now - start)%Q.
Proof.
  unfold timed_out. rewrite negb_true_iff.
  destruct (Qle_bool (now - start) (inject_Z (timeout c))) eqn:E.
  - apply Qle_bool_iff in E. split; [discriminate | intros H; lra].
  - split; [intros _ | reflexivity].
    destruct (Qlt_le_dec (inject_Z (timeout c)) (now - start)) as [H|H]; [exact H|].
    apply Qle_bool_iff in H. congruence.
Qed.

Lemma timed_out_false now :
  timed_out c start now = false <-> (now - start <= inject_Z (timeout c))%Q.
Proof.
  unfold timed_out. rewrite negb_false_iff. apply Qle_bool_iff.
Qed.

(** One turn of the loop on a reply that keeps it going: sleep, then query
    again. *)
Lemma poll_step fuel now i :
  timed_out c start now = false ->
  keeps_polling (env i) ->
  _poll_for_result (S fuel) c env jid start now i =
  _poll_for_result fuel c env jid start
    (now + latency (env i) + inject_Z (poll_interval c))%Q (S i).
Proof.
  intros Hto (resp & Hr & Hk). cbn [_poll_for_result].
  rewrite Hto, Hr.
  destruct Hk as [Hcode | Hterm].
  - apply Z.eqb_neq in Hcode. rewrite Hcode. reflexivity.
  - destruct (status_code resp =? 200)%Z; cbn [negb]; [|reflexivity].
    unfold terminal_status in Hterm.
    apply orb_false_iff in Hterm as [Hterm Hc].
    apply orb_false_iff in Hterm as [Ha Hb].
    rewrite Ha, Hb, Hc. reflexivity.
Qed.

(** After [k] replies that keep the loop going, none of them past the
    deadline, the loop stands at its [k]-th query. *)
Lemma poll_reaches (d : nat) : forall (i fuel : nat),
  (forall j, (i <= j < i + d)%nat -> keeps_polling (env j)) ->
  (forall j, (i <= j < i + d)%nat ->
             timed_out c start (clock_at c env start j) = false) ->
  _poll_for_result (d + fuel) c env jid start (clock_at c env start i) i =
  _poll_for_result fuel c env jid start (clock_at c env start (i + d)) (i + d).
Proof.
  induction d as [|d IH]; intros i fuel Hkeep Hclock.
  - rewrite Nat.add_0_r. reflexivity.
  - cbn [Nat.add]. rewrite poll_step; [|apply Hclock; lia | apply Hkeep; lia].
    change (clock_at c env start i + latency (env i) + inject_Z (poll_interval c))%Q
      with (clock_at c env start (S i)).
    rewrite IH; [|intros; apply Hkeep; lia | intros; apply Hclock; lia].
    replace (S i + d)%nat with (i + S d)%nat by lia. reflexivity.
Qed.

Lemma inject_Z_S n : (inject_Z (Z.of_nat (S n)) == inject_Z (Z.of_nat n) + 1)%Q.
Proof. rewrite Nat2Z.inj_succ, <- Z.add_1_r, inject_Z_plus. reflexivity. Qed.

Hypothesis interval_pos : 1 <= poll_interval c.
Hypothesis replies_keep_polling : forall i, keeps_polling (env i).
Hypothesis latency_nonneg : forall i, (0 <= latency (env i))%Q.

Lemma interval_Q : (1 <= inject_Z (poll_interval c))%Q.
Proof. change 1%Q with (inject_Z 1). rewrite <- Zle_Qle. exact interval_pos. Qed.

(** With enough fuel the loop ends, and it ends in the timeout result. *)
Lemma poll_ends_in_timeout fuel : forall now i,
  (inject_Z (timeout c) - (now - start) < inject_Z (Z.of_nat fuel))%Q ->
  exists t n,
    _poll_for_result (S fuel) c env jid start now i =
    Some (mkRun (Ret (timeout_result c jid)) t n).
Proof.
  induction fuel as [|fuel IH]; intros now i Hfuel.
  - assert (Hto : timed_out c start now = true).
    { apply timed_out_true. change (inject_Z (Z.of_nat 0)) with 0%Q in Hfuel. lra. }
    cbn [_poll_for_result]. rewrite Hto. eauto.
  - destruct (timed_out c start now) eqn:Hto.
    + cbn [_poll_for_result]. rewrite Hto. eauto.
    + rewrite poll_step by auto.
      apply IH. rewrite inject_Z_S in Hfuel.
      pose proof interval_Q. pose proof (latency_nonneg i). lra.
Qed.

(** When no query takes longer than [L], the loop returns at most
    [poll_interval + L] after the deadline. *)
Variable L : Q.
Hypothesis latency_bounded : forall i, (latency (env i) <= L)%Q.

Lemma poll_overshoot fuel : forall now i run,
  (now - start <= inject_Z (timeout c) + inject_Z (poll_interval c) + L)%Q ->
  _poll_for_result fuel c env jid start now i = Some run ->
  (end_time run - start <= inject_Z (timeout c) + inject_Z (poll_interval c) + L)%Q.
Proof.
  induction fuel as [|fuel IH]; intros now i run Hinv Hrun; [discriminate|].
  destruct (timed_out c start now) eqn:Hto.
  - cbn [_poll_for_result] in Hrun. rewrite Hto in Hrun.
    injection Hrun as <-. exact Hinv.
  - rewrite poll_step in Hrun by auto.
    apply IH in Hrun; [exact Hrun|].
    apply timed_out_false in Hto. pose proof (latency_bounded i). lra.
Qed.

End PollLoop.

Section SubmitJob.
Import RunPod RunPodRuns.

Lemma nonterminal_keeps_polling r : reports_nonterminal r -> keeps_polling r.
Proof. intros (resp & Hr & _ & Ht). exists resp. auto. Qed.

Lemma fuel_covers_timeout (T : Z) (fuel : nat) :
  (Z.to_nat T + 1 <= fuel)%nat -> (inject_Z T < inject_Z (Z.of_nat fuel))%Q.
Proof. intros H. rewrite <- Zlt_Qlt. lia. Qed.

(** C1, as the code has it.  A job accepted by the endpoint whose status
    queries all answer with a non-terminal status makes [submit_job], called
    with [wait_for_completion = True], return a result with [success = False]
    and status [timeout].  The deadline is counted from the start of the
    polling loop, that is from the acceptance of the submission, and a query
    that takes up to [L] seconds delays the return by as much: the call
    returns at most [timeout + poll_interval + L] seconds after the
    acceptance. *)
Theorem submit_job_times_out (c : Client) (post : Reply) (env : nat -> Reply)
    (now L : Q) (fuel : nat) :
  0 <= timeout c ->
  1 <= poll_interval c ->
  accepted post ->
  (forall i, reports_nonterminal (env i)) ->
  (forall i, (0 <= latency (env i) <= L)%Q) ->
  (Z.to_nat (timeout c) + 2 <= fuel)%nat ->
  exists run r,
    submit_job fuel c post env true now = Some run /\
    result run = Ret r /\
    success r = false /\
    status r = Some "timeout" /\
    state_of r = Some TimedOut /\
    (end_time run - (now + latency post) <=
     inject_Z (timeout c) + inject_Z (poll_interval c) + L)%Q.
Proof.
  intros HT HP (resp & Hpost & Hcode) Hnt Hlat Hfuel.
  destruct fuel as [|fuel]; [lia|].
  assert (HL : (0 <= L)%Q) by (destruct (Hlat 0%nat); lra).
  assert (HTq : (0 <= inject_Z (timeout c))%Q).
  { change 0%Q with (inject_Z 0). rewrite <- Zle_Qle. exact HT. }
  pose proof (interval_Q c HP) as HPq.
  set (t0 := (now + latency post)%Q).
  destruct (poll_ends_in_timeout c env (b_id (json resp)) t0 HP
              (fun i => nonterminal_keeps_polling _ (Hnt i))
              (fun i => proj1 (Hlat i)) fuel t0 0%nat) as (t & n & Hrun).
  { pose proof (fuel_covers_timeout (timeout c) fuel ltac:(lia)). lra. }
  pose proof (poll_overshoot c env (b_id (json resp)) t0
                (fun i => nonterminal_keeps_polling _ (Hnt i)) L
                (fun i => proj2 (Hlat i)) (S fuel) t0 0%nat _
                ltac:(lra) Hrun) as Hbound.
  unfold submit_job. rewrite Hpost, Hcode. cbn [Z.eqb Pos.eqb negb].
  fold t0. rewrite Hrun. cbn [result].
  eexists _, _. repeat split; try reflexivity. exact Hbound.
Qed.

Lemma submit_job_times_out_witness :
  exists run r,
    submit_job 12 client_10_5 accepted_post slow_env true 0 = Some run /\
    result run = Ret r /\
    success r = false /\
    status r = Some "timeout" /\
    state_of r = Some TimedOut /\
    (end_time run - (0 + latency accepted_post) <=
     inject_Z (timeout client_10_5) + inject_Z (poll_interval client_10_5) + 3)%Q.
Proof.
  apply (submit_job_times_out client_10_5 accepted_post slow_env 0 3 12).
  - vm_compute. discriminate.
  - vm_compute. discriminate.
  - eexists. split; reflexivity.
  - intros i. eexists. repeat split; reflexivity.
  - intros i. split; vm_compute; discriminate.
  - vm_compute. lia.
Defined.

(** C1 as stated fails when status queries take time: with [timeout = 10],
    [poll_interval = 5] and queries that take 3 seconds each, the deadline
    is checked at 0, 8 and 16 seconds, so the timeout result comes back 16
    seconds after the submission, later than [10 + 5]. *)
Lemma submit_job_overshoots_one_interval :
  submit_job 10 client_10_5 accepted_post slow_env true 0 =
    Some (mkRun (Ret (mkJobResult false (Some "job-1") (Some "timeout") None
                        (Some "Job timed out after 10 seconds") (Some 16%Q)))
                16%Q 2%nat) /\
  ~ (16 - 0 <= inject_Z (timeout client_10_5) + inject_Z (poll_interval client_10_5))%Q.
Proof.
  split; [vm_compute; reflexivity|].
  vm_compute. intros H. apply H. reflexivity.
Qed.

(** C3, as the code has it.  A status query answered with a non-200
    response makes the loop sleep one poll interval and query again; and
    when every query is answered, by a non-200 response or by a
    non-terminal status, the loop ends only through its deadline, in the
    timeout result.  A status query that raises is not retried: the loop
    ends there with the exception, without a sleep and without a further
    query; and when the queries before it were retried, [submit_job]
    itself ends with that exception, right after the failed query. *)
Theorem non_200_replies_are_retried (c : Client) (env : nat -> Reply)
    (jid : option string) (start : Q) :
  (forall fuel now i resp,
     timed_out c start now = false ->
     reply (env i) = Ret resp ->
     status_code resp <> 200 ->
     _poll_for_result (S fuel) c env jid start now i =
     _poll_for_result fuel c env jid start
       (now + latency (env i) + inject_Z (poll_interval c))%Q (S i)) /\
  (1 <= poll_interval c ->
   (forall i, keeps_polling (env i)) ->
   (forall i, (0 <= latency (env i))%Q) ->
   forall fuel, (Z.to_nat (timeout c) + 2 <= fuel)%nat ->
   exists t n,
     _poll_for_result fuel c env jid start start 0%nat =
     Some (mkRun (Ret (timeout_result c jid)) t n)) /\
  (forall fuel now i e,
     timed_out c start now = false ->
     reply (env i) = Raise e ->
     _poll_for_result (S fuel) c env jid start now i =
     Some (mkRun (Raise e) (now + latency (env i))%Q (S i))) /\
  (forall fuel post now k e,
     accepted post ->
     (forall j, (j < k)%nat -> keeps_polling (env j)) ->
     (forall j, (j <= k)%nat ->
        timed_out c (now + latency post)
          (clock_at c env (now + latency post) j) = false) ->
     reply (env k) = Raise e ->
     (k < fuel)%nat ->
     submit_job fuel c post env true now =
     Some (mkRun (Raise e)
             (clock_at c env (now + latency post) k + latency (env k))%Q (S k))).
Proof.
  split; [|split; [|split]].
  - intros fuel now i resp Hto Hr Hcode. apply poll_step; [exact Hto|].
    exists resp. auto.
  - intros HP Hk Hlat fuel Hfuel.
    destruct fuel as [|fuel]; [lia|].
    apply poll_ends_in_timeout; auto.
    pose proof (fuel_covers_timeout (timeout c) fuel ltac:(lia)). lra.
  - intros fuel now i e Hto Hr. cbn [_poll_for_result].
    rewrite Hto, Hr. reflexivity.
  - intros fuel post now k e (resp & Hpost & Hcode) Hkeep Hclock Hr Hfuel.
    unfold submit_job. rewrite Hpost, Hcode. cbn [Z.eqb Pos.eqb negb].
    set (t0 := (now + latency post)%Q) in *.
    replace fuel with (k + S (fuel - S k))%nat by lia.
    change t0 with (clock_at c env t0 0) at 2.
    rewrite (poll_reaches c env (b_id (json resp)) t0 k 0%nat);
      [|intros; apply Hkeep; lia | intros; apply Hclock; lia].
    cbn [Nat.add _poll_for_result].
    rewrite (Hclock k) by lia. rewrite Hr. reflexivity.
Qed.

Lemma non_200_replies_are_retried_witness :
  exists t n,
    _poll_for_result 12 client_10_5 unavailable_env (Some "job-1") 0 0 0%nat =
    Some (mkRun (Ret (timeout_result client_10_5 (Some "job-1"))) t n).
Proof.
  apply (proj1 (proj2 (non_200_replies_are_retried client_10_5 unavailable_env
                         (Some "job-1") 0))).
  - vm_compute. discriminate.
  - intros i. eexists. split; [reflexivity|]. left. discriminate.
  - intros i. vm_compute. discriminate.
  - vm_compute. lia.
Defined.

(** C3 as stated fails for a transport failure: when [client.get] raises,
    nothing in the loop catches the exception; the loop is left after that
    one query, without a sleep, and the caller receives the exception. *)
Lemma transport_error_aborts_polling :
  _poll_for_result 10 client_10_5 broken_env (Some "job-1") 0 0 0%nat =
    Some (mkRun (Raise connect_error) 0%Q 1%nat) /\
  submit_job 10 client_10_5 accepted_post broken_env true 0 =
    Some (mkRun (Raise connect_error) 0%Q 1%nat).
Proof. split; vm_compute; reflexivity. Qed.

(** C8.  A submission the endpoint accepts, made with
    [wait_for_completion = False], returns as soon as the response is in:
    no status query is sent, the result is successful with status [queued]
    (the accepted state) and carries the job id of the response. *)
Theorem submit_job_no_wait (fuel : nat) (c : Client) (post : Reply)
    (env : nat -> Reply) (now : Q) (resp : Response) :
  reply post = Ret resp ->
  status_code resp = 200 ->
  exists r,
    submit_job fuel c post env false now =
      Some (mkRun (Ret r) (now + latency post)%Q 0%nat) /\
    success r = true /\
    job_id r = b_id (json resp) /\
    status r = Some "queued" /\
    state_of r = Some Accepted.
Proof.
  intros Hr Hcode. unfold submit_job. rewrite Hr, Hcode.
  cbn [Z.eqb Pos.eqb negb]. eexists. repeat split; reflexivity.
Qed.

Lemma submit_job_no_wait_witness :
  exists r,
    submit_job 0 client_10_5 accepted_post slow_env false 0 =
      Some (mkRun (Ret r) (0 + latency accepted_post)%Q 0%nat) /\
    success r = true /\
    job_id r = Some "job-1" /\
    status r = Some "queued" /\
    state_of r = Some Accepted.
Proof.
  apply (submit_job_no_wait 0 client_10_5 accepted_post slow_env 0
           (mkResponse 200 "" (mkBody (Some "job-1") None None None)));
    reflexivity.
Defined.

End SubmitJob.

(** * Properties of the folder watcher *)

Section Watcher.
Import Drive DriveRuns.

Lemma add_ids_union (files : list DriveFile) : forall known : gset string,
  add_ids files known = known ∪ list_to_set (id <$> files).
Proof.
  unfold add_ids. induction files as [|f files IH]; intros known; cbn.
  - set_solver.
  - rewrite IH. set_solver.
Qed.

Lemma elem_of_new_files (known : gset string) (current : list DriveFile) f :
  f ∈ new_files known current <-> f ∈ current /\ id f ∉ known.
Proof. unfold new_files. rewrite list_elem_of_filter. tauto. Qed.

(** C5, as the code has it.  The initial scan records the identifier of
    every listed file as known and invokes no callback.  A poll whose
    listing holds files with unknown identifiers invokes the callback
    exactly once, with exactly those files in listing order, and, when the
    callback returns normally, their identifiers join the known set.  When
    the callback raises, the poll still ends normally, the known set is
    left as it was, and the next poll over the same listing invokes the
    callback again with the same files.  A poll without unknown
    identifiers changes nothing and invokes no callback. *)
Theorem watch_folder_reports_new_files
    (callback : nat -> list DriveFile -> Outcome unit) :
  (forall initial_files ticks,
     watch_folder callback (Ret initial_files) ticks =
       Ret (watch_loop callback ticks (initial_scan initial_files)) /\
     known_files (initial_scan initial_files) = list_to_set (id <$> initial_files) /\
     calls (initial_scan initial_files) = []) /\
  (forall st current,
     new_files (known_files st) current <> [] ->
     let st' := poll_once callback st (Ret current) in
     calls st' = (calls st ++ [new_files (known_files st) current])%list /\
     (forall f, f ∈ new_files (known_files st) current <->
                f ∈ current /\ id f ∉ known_files st) /\
     (is_ret (callback (length (calls st)) (new_files (known_files st) current)) = true ->
      known_files st' =
        known_files st ∪ list_to_set (id <$> new_files (known_files st) current)) /\
     (is_ret (callback (length (calls st)) (new_files (known_files st) current)) = false ->
      known_files st' = known_files st /\
      (forall f, f ∈ new_files (known_files st) current -> id f ∉ known_files st') /\
      calls (poll_once callback st' (Ret current)) =
        (calls st ++ [new_files (known_files st) current;
                      new_files (known_files st) current])%list)) /\
  (forall st current,
     new_files (known_files st) current = [] ->
     poll_once callback st (Ret current) = st).
Proof.
  split; [|split].
  - intros initial_files ticks. split; [reflexivity|]. split; [|reflexivity].
    unfold initial_scan. cbn. rewrite add_ids_union. set_solver.
  - intros st current Hnew. cbv zeta.
    remember (poll_once callback st (Ret current)) as st' eqn:Hst'.
    unfold poll_once in Hst'.
    remember (new_files (known_files st) current) as nfs eqn:E.
    destruct nfs as [|f nf]; [congruence|].
    assert (Hin : forall g, g ∈ f :: nf <-> g ∈ current /\ id g ∉ known_files st).
    { intros g. rewrite E. apply elem_of_new_files. }
    destruct (callback (length (calls st)) (f :: nf)) as [u|e]; subst st';
      cbn [is_ret known_files calls].
    + split; [reflexivity|]. split; [exact Hin|].
      split; [intros _; apply add_ids_union | discriminate].
    + split; [reflexivity|]. split; [exact Hin|].
      split; [discriminate|]. intros _.
      split; [reflexivity|]. split; [intros g Hg; apply Hin in Hg; tauto|].
      unfold poll_once. cbn [known_files calls]. rewrite <- E.
      destruct (callback _ _); cbn [calls]; rewrite <- app_assoc; reflexivity.
  - intros st current Hnew. unfold poll_once. rewrite Hnew. reflexivity.
Qed.

(** The watcher on a folder of three files to which two are added: one
    callback invocation, with those two. *)
Lemma watch_folder_reports_new_files_witness :
  let st := initial_scan existing in
  let st' := poll_once quiet_callback st (Ret (existing ++ arrived)%list) in
  calls st = [] /\
  calls st' = [arrived] /\
  known_files st' = known_files st ∪ list_to_set (id <$> arrived).
Proof.
  destruct (watch_folder_reports_new_files quiet_callback) as (Hinit & Hpoll & _).
  destruct (Hinit existing []) as (_ & _ & Hcalls).
  destruct (Hpoll (initial_scan existing) (existing ++ arrived)%list)
    as (Hc & _ & Hk & _).
  { vm_compute. discriminate. }
  cbv zeta. split; [exact Hcalls|]. split.
  - rewrite Hc, Hcalls. vm_compute. reflexivity.
  - rewrite Hk by reflexivity.
    f_equal.
Defined.

(** C5 as stated fails when the callback raises: the exception is caught
    and logged, the identifiers of the new files are not added to the known
    set, and the next poll reports the same files again. *)
Lemma failed_callback_leaves_files_unknown :
  let st := initial_scan existing in
  let st1 := poll_once failing_callback st (Ret (existing ++ arrived)%list) in
  let st2 := poll_once failing_callback st1 (Ret (existing ++ arrived)%list) in
  calls st1 = [arrived] /\
  known_files st1 = known_files st /\
  ("d" ∉ known_files st1) /\
  calls st2 = [arrived; arrived].
Proof.
  cbv zeta. split; [vm_compute; reflexivity|].
  split; [reflexivity|]. split; [|vm_compute; reflexivity].
  apply (bool_decide_unpack _). vm_compute. reflexivity.
Qed.

End Watcher.

(** * Properties of the garment preparation *)

Section Prepare.
Import ImageUtil ImageRuns.

(** The colour conversion leaves an RGB image of the same size. *)
Lemma convert_to_rgb (img : Image) :
  (if String.eqb (mode img) "RGBA"
   then mkImage "RGB" (width img) (height img)
   else if negb (String.eqb (mode img) "RGB")
        then mkImage "RGB" (width img) (height img) else img)
  = mkImage "RGB" (width img) (height img).
Proof.
  destruct (String.eqb (mode img) "RGBA"); [reflexivity|].
  destruct (String.eqb (mode img) "RGB") eqn:E; [|reflexivity].
  apply String.eqb_eq in E. destruct img; cbn in *. congruence.
Qed.

Lemma thumbnail_mode (img : Image) (x y : Z) : mode (thumbnail img x y) = mode img.
Proof.
  unfold thumbnail. destruct (thumbnail_size _ _ _ _) as [[w' h']|]; [|reflexivity].
  destruct (_ && _); reflexivity.
Qed.

(** The prepared image is always in RGB mode. *)
Lemma prepare_garment_image_mode (img : Image) (target_size : Z) :
  mode (prepare_garment_image img target_size) = "RGB".
Proof.
  unfold prepare_garment_image. rewrite convert_to_rgb.
  match goal with |- context [negb ?b] => destruct (negb b) end;
    [reflexivity | apply thumbnail_mode].
Qed.

(** An image that is not square after the thumbnail step is padded to the
    target square. *)
Lemma prepare_garment_image_pads (img : Image) (target_size : Z) :
  let img1 := thumbnail (mkImage "RGB" (width img) (height img))
                target_size target_size in
  width img1 <> height img1 ->
  prepare_garment_image img target_size = mkImage "RGB" target_size target_size.
Proof.
  intros img1 Hne. unfold prepare_garment_image. rewrite convert_to_rgb.
  fold img1. apply Z.eqb_neq in Hne. rewrite Hne. reflexivity.
Qed.

(** C9 on the code: a square image no larger than the target is neither
    enlarged (a thumbnail never enlarges) nor padded (it is square
    already), so the prepared image keeps its own size instead of the
    target dimension. *)
Theorem prepare_garment_image_small_square (m : string) (w target_size : Z) :
  w <= target_size ->
  prepare_garment_image (mkImage m w w) target_size = mkImage "RGB" w w.
Proof.
  intros Hw. unfold prepare_garment_image. rewrite convert_to_rgb.
  cbn [mode width height].
  assert (Ht : thumbnail (mkImage "RGB" w w) target_size target_size
               = mkImage "RGB" w w).
  { unfold thumbnail, thumbnail_size. cbn [mode width height].
    apply Z.leb_le in Hw. rewrite Hw. reflexivity. }
  rewrite Ht. cbn [width height]. rewrite Z.eqb_refl. reflexivity.
Qed.

Lemma prepare_garment_image_small_square_witness :
  prepare_garment_image small_square 1024 = mkImage "RGB" 500 500 /\
  (width (prepare_garment_image small_square 1024),
   height (prepare_garment_image small_square 1024)) <> (1024, 1024).
Proof.
  assert (H : prepare_garment_image small_square 1024 = mkImage "RGB" 500 500).
  { apply (prepare_garment_image_small_square "RGB" 500 1024). vm_compute. discriminate. }
  split; [exact H|]. rewrite H. cbn. discriminate.
Defined.

End Prepare.

(** * Properties of the page layout *)

Section Layout.
Import Assembler ImageRuns.
Local Open Scope Q_scope.

Lemma Qeq_bool_false_pos (q : Q) : 0 < q -> Qeq_bool q 0 = false.
Proof.
  intros H. destruct (Qeq_bool q 0) eqn:E; [|reflexivity].
  apply Qeq_bool_eq in E. lra.
Qed.

Lemma Qle_bool_false (a b : Q) : Qle_bool a b = false <-> b < a.
Proof.
  split; intros H.
  - destruct (Qlt_le_dec b a) as [Hlt|Hle]; [exact Hlt|].
    apply Qle_bool_iff in Hle. congruence.
  - destruct (Qle_bool a b) eqn:E; [|reflexivity].
    apply Qle_bool_iff in E. lra.
Qed.

Lemma aspect_pos (iw ih : Z) :
  (0 < iw)%Z -> (0 < ih)%Z -> 0 < inject_Z iw / inject_Z ih.
Proof.
  intros Hw Hh.
  assert (0 < inject_Z iw) by (change 0 with (inject_Z 0); rewrite <- Zlt_Qlt; lia).
  assert (0 < inject_Z ih) by (change 0 with (inject_Z 0); rewrite <- Zlt_Qlt; lia).
  apply Qlt_shift_div_l; lra.
Qed.

(** The region is proportionally wider than the image exactly when the
    image, scaled to the region's height, is narrower than the region. *)
Lemma wider_iff (W H A : Q) : 0 < H -> (A < W / H <-> A * H < W).
Proof.
  intros HH. split; intros Hlt.
  - apply (Qmult_lt_r _ _ H HH) in Hlt.
    assert (E : W / H * H == W) by (field; lra). rewrite E in Hlt. exact Hlt.
  - apply Qlt_shift_div_l; assumption.
Qed.

(** What [layout_single] computes on a real image and a real region. *)
Lemma layout_single_cases (iw ih : Z) (x y W H : Q) :
  (0 < iw)%Z -> (0 < ih)%Z -> 0 < W -> 0 < H ->
  let A := inject_Z iw / inject_Z ih in
  exists r, layout_single iw ih x y W H = Some r /\
    rx r == x + (W - rw r) / 2 /\
    ry r == y + (H - rh r) / 2 /\
    (A < W / H -> rh r == (9 # 10) * H /\ rw r == (9 # 10) * H * A) /\
    (W / H <= A -> rw r == (8 # 10) * W /\ rh r == (8 # 10) * W / A).
Proof.
  intros Hiw Hih HW HH A.
  pose proof (aspect_pos iw ih Hiw Hih) as HA. fold A in HA.
  unfold layout_single.
  assert (Eih : (ih =? 0)%Z = false) by (apply Z.eqb_neq; lia).
  rewrite Eih, (Qeq_bool_false_pos H HH). fold A.
  destruct (Qle_bool (W / H) A) eqn:E; cbn [negb].
  - rewrite (Qeq_bool_false_pos A HA).
    apply Qle_bool_iff in E.
    eexists. split; [reflexivity|]. cbn [rx ry rw rh].
    split; [reflexivity|]. split; [reflexivity|]. split.
    + intros Hlt. lra.
    + intros _. split; [ring | field; lra].
  - apply Qle_bool_false in E.
    eexists. split; [reflexivity|]. cbn [rx ry rw rh].
    split; [reflexivity|]. split; [reflexivity|]. split.
    + intros _. split; ring.
    + intros Hle. lra.
Qed.

(** C4.  An existing, readable image of [iw] x [ih] pixels drawn alone in
    the region at [(x, y)] of size [W] x [H] is placed in one rectangle.
    With [A = iw / ih]: if [W / H > A] its height is [0.9 * H] and its
    width [0.9 * H * A], otherwise its width is [0.8 * W] and its height
    [0.8 * W / A].  In both cases the rectangle has the aspect ratio [A],
    lies inside the region and has equal margins left and right, and
    below and above. *)
Theorem single_image_aspect_fit (env : Env) (p : string) (iw ih : Z)
    (x y W H : Q) (c : Canvas) :
  path_exists env p = true ->
  image_size env p = Ret (iw, ih) ->
  (0 < iw)%Z -> (0 < ih)%Z -> 0 < W -> 0 < H ->
  let A := inject_Z iw / inject_Z ih in
  exists r,
    _draw_single_image env (Some p) x y W H c = Ret (draw (DrawImage p r) c) /\
    (A < W / H -> rh r == (9 # 10) * H /\ rw r == (9 # 10) * H * A) /\
    (W / H <= A -> rw r == (8 # 10) * W /\ rh r == (8 # 10) * W / A) /\
    rw r == rh r * A /\
    (x <= rx r /\ rx r + rw r <= x + W /\ y <= ry r /\ ry r + rh r <= y + H) /\
    rx r - x == (x + W) - (rx r + rw r) /\
    ry r - y == (y + H) - (ry r + rh r).
Proof.
  intros Hex Hsz Hiw Hih HW HH A.
  pose proof (aspect_pos iw ih Hiw Hih) as HA. fold A in HA.
  destruct (layout_single_cases iw ih x y W H Hiw Hih HW HH)
    as (r & Hr & Hx & Hy & Hwide & Hnarrow). fold A in Hwide, Hnarrow.
  exists r. split.
  { unfold _draw_single_image, os_path_exists. rewrite Hex, Hsz, Hr. reflexivity. }
  split; [exact Hwide|]. split; [exact Hnarrow|].
  assert (Hx' : rx r == x + (W - rw r) * (1 # 2)) by (rewrite Hx; field).
  assert (Hy' : ry r == y + (H - rh r) * (1 # 2)) by (rewrite Hy; field).
  clear Hx Hy Hr.
  destruct (Qlt_le_dec A (W / H)) as [Hlt|Hle].
  - destruct (Hwide Hlt) as [Hh Hw].
    apply (proj1 (wider_iff W H A HH)) in Hlt.
    assert (Hrw : rw r == rh r * A) by (rewrite Hh, Hw; reflexivity).
    split; [exact Hrw|].
    assert (Hrw' : rw r == (9 # 10) * (A * H)) by (rewrite Hw; ring).
    repeat split; lra.
  - destruct (Hnarrow Hle) as [Hw Hh].
    assert (HWA : W / A <= H).
    { apply Qle_shift_div_r; [exact HA|].
      apply (Qmult_le_r _ _ H HH) in Hle.
      assert (E : W / H * H == W) by (field; lra). rewrite E in Hle. lra. }
    assert (Hrh : rh r == (8 # 10) * (W / A)) by (rewrite Hh; field; lra).
    assert (Hrw : rw r == rh r * A) by (rewrite Hh, Hw; field; lra).
    split; [exact Hrw|].
    repeat split; lra.
Qed.

(** The content region of a product page has positive width and height. *)
Lemma content_region_positive :
  0 < page_width - 2 * page_margin /\
  0 < page_height - page_margin - header_height - (page_margin + footer_height).
Proof. split; vm_compute; reflexivity. Qed.

(** The specification's example: an image of aspect 2:1 in a square region;
    the width binds and the image is centred. *)
Lemma single_image_aspect_fit_witness :
  exists r,
    _draw_single_image wide_env (Some "/img/wide.png") 0 0 100 100
      (new_canvas "out.pdf")
    = Ret (draw (DrawImage "/img/wide.png" r) (new_canvas "out.pdf")) /\
    rw r == 80 /\ rh r == 40 /\ rx r == 10 /\ ry r == 30.
Proof.
  destruct (single_image_aspect_fit wide_env "/img/wide.png" 2000 1000
              0 0 100 100 (new_canvas "out.pdf"))
    as (r & Hdraw & _ & Hnarrow & _ & _ & Hcx & Hcy);
    try reflexivity.
  exists r. split; [exact Hdraw|].
  destruct Hnarrow as [Hw Hh]; [vm_compute; discriminate|].
  assert (Hh' : rh r == 40) by (rewrite Hh; reflexivity).
  assert (Hw' : rw r == 80) by (rewrite Hw; reflexivity).
  repeat split; lra.
Defined.

End Layout.

(** * Properties of the page composition *)

Section Compose.
Import Assembler.

Variable env : Env.
Variable cfg : Config.

(** Drawing an image whose path is a string never raises: the canvas is
    left as it is, or gains that one image. *)
Lemma draw_single_image_some (p : string) (x y w h : Q) (c : Canvas) :
  _draw_single_image env (Some p) x y w h c = Ret c \/
  (path_exists env p = true /\
   exists r, _draw_single_image env (Some p) x y w h c = Ret (draw (DrawImage p r) c)).
Proof.
  unfold _draw_single_image, os_path_exists.
  destruct (path_exists env p) eqn:Hex; [|left; reflexivity].
  destruct (image_size env p) as [[iw ih]|e]; [|left; reflexivity].
  destruct (layout_single iw ih x y w h) as [r|]; [|left; reflexivity].
  right. split; [reflexivity|]. exists r. reflexivity.
Qed.

Lemma draw_single_image_missing (p : string) (x y w h : Q) (c : Canvas) :
  path_exists env p = false ->
  _draw_single_image env (Some p) x y w h c = Ret c.
Proof.
  intros Hex. unfold _draw_single_image, os_path_exists. rewrite Hex. reflexivity.
Qed.

(** Without a path the existence test raises, before anything is drawn. *)
Lemma draw_single_image_none (x y w h : Q) (c : Canvas) :
  exists e, _draw_single_image env None x y w h c = Raise e /\
            exn_class e = "TypeError".
Proof. eexists. split; reflexivity. Qed.

Lemma only_adds_images_refl c : only_adds_images env c c.
Proof.
  repeat split. exists []. split; [symmetry; apply app_nil_r|].
  intros o Ho. inversion Ho.
Qed.

Lemma only_adds_images_trans c1 c2 c3 :
  only_adds_images env c1 c2 -> only_adds_images env c2 c3 ->
  only_adds_images env c1 c3.
Proof.
  intros (Hf1 & Hp1 & Hs1 & i1 & Hc1 & Hi1) (Hf2 & Hp2 & Hs2 & i2 & Hc2 & Hi2).
  repeat split; try congruence.
  exists (i1 ++ i2)%list. split.
  - rewrite Hc2, Hc1. symmetry. apply app_assoc.
  - intros o Ho. apply elem_of_app in Ho as [Ho|Ho]; auto.
Qed.

Lemma draw_single_image_adds (p : string) (x y w h : Q) (c : Canvas) :
  exists c', _draw_single_image env (Some p) x y w h c = Ret c' /\
             only_adds_images env c c'.
Proof.
  destruct (draw_single_image_some p x y w h c) as [H | (Hex & r & H)].
  - exists c. split; [exact H | apply only_adds_images_refl].
  - eexists. split; [exact H|]. repeat split.
    exists [DrawImage p r]. split; [reflexivity|].
    intros o Ho. apply list_elem_of_singleton in Ho. eauto.
Qed.

(** A product page whose primary image path is a string is always emitted:
    one page is closed, it carries the product title, and every image on it
    is a file that exists. *)
Lemma create_product_page_some (p : string) (closeup : option string)
    (product_name : string) (product_code : option string) (page_number : nat)
    (c : Canvas) :
  exists ops,
    _create_product_page env cfg (Some p) closeup product_name product_code
      page_number c
    = Ret (mkCanvas (filename c) [] (pages c ++ [mkPage Product ops]) (saved c)) /\
    DrawString page_margin (page_margin + 30)%Q product_name ∈ ops /\
    (forall q r, DrawImage q r ∈ ops ->
       DrawImage q r ∈ cur c \/ path_exists env q = true).
Proof.
  unfold _create_product_page.
  set (c1 := _draw_page_header cfg _).
  set (region := if and_exists env closeup then _ else _).
  assert (Hdrawn : exists c2, region = Ret c2 /\ only_adds_images env c1 c2).
  { subst region. destruct (and_exists env closeup) eqn:Hc.
    - destruct closeup as [q|]; [|discriminate].
      unfold _draw_split_layout.
      destruct (draw_single_image_adds p page_margin
                  (page_margin + footer_height)%Q
                  ((page_width - 2 * page_margin) * (58 # 100))%Q
                  (page_height - page_margin - header_height
                   - (page_margin + footer_height))%Q c1) as (c2 & -> & H12).
      match goal with
      | |- context [_draw_single_image env (Some q) ?x ?y ?w ?h c2] =>
        destruct (draw_single_image_adds q x y w h c2) as (c3 & -> & H23)
      end.
      exists c3. split; [reflexivity|].
      eapply only_adds_images_trans; eauto.
    - apply draw_single_image_adds. }
  destruct Hdrawn as (c2 & -> & Hf & Hp & Hs & imgs & Hcur & Himgs).
  unfold showPage, _draw_page_footer, _draw_product_info.
  destruct (include_page_numbers cfg), (truthy_str product_code);
    cbn [filename pages saved cur draw]; rewrite Hf, Hp, Hs, Hcur;
    subst c1; cbn [_draw_page_header filename pages saved cur draw];
    (eexists; split; [reflexivity|]; split; [set_solver|]);
    intros q r Hin;
    repeat (apply elem_of_app in Hin as [Hin|Hin]);
    repeat match goal with
           | H : _ ∈ [_] |- _ => apply list_elem_of_singleton in H; try discriminate H
           end;
    try (left; exact Hin);
    try (destruct (Himgs _ Hin) as (q' & r' & Heq & Hex);
         injection Heq as -> ->; right; exact Hex).
Qed.

(** The loop over the entries emits one product page per entry when every
    entry has a primary image path. *)
Lemma product_pages_some (images : list ImageSet) : forall (i : nat) (c : Canvas),
  (forall im, im ∈ images -> is_Some (primary_image im)) ->
  exists ps,
    product_pages env cfg images i c
    = Ret (mkCanvas (filename c) (match images with [] => cur c | _ => [] end)
             (pages c ++ ps) (saved c)) /\
    length ps = length images /\
    Forall (fun pg => kind pg = Product) ps.
Proof.
  induction images as [|im images IH]; intros i c Hall.
  - exists []. cbn. rewrite app_nil_r. destruct c; auto.
  - destruct (Hall im) as [p Hp]; [set_solver|].
    cbn [product_pages]. rewrite Hp.
    destruct (create_product_page_some p (d_closeup im)
                (default ("Style #" +:+ pretty (i + 1)%nat) (d_product_name im))
                (d_product_code im) (i + 1)%nat c) as (ops & -> & _).
    destruct (IH (S i) (mkCanvas (filename c) []
                          (pages c ++ [mkPage Product ops]) (saved c)))
      as (ps & -> & Hlen & Hkind); [set_solver|].
    exists (mkPage Product ops :: ps). cbn [filename cur pages saved].
    split; [|split].
    + rewrite <- app_assoc. destruct images; reflexivity.
    + cbn. congruence.
    + constructor; [reflexivity | exact Hkind].
Qed.

Lemma filter_product_all (ps : list Page) :
  Forall (fun pg => kind pg = Product) ps ->
  filter (fun pg => kind pg = Product) ps = ps.
Proof.
  induction 1 as [|pg ps Hpg _ IH]; [reflexivity|].
  rewrite filter_cons_True by exact Hpg. congruence.
Qed.

(** The covers close exactly one page each. *)
Lemma create_cover_page_shape (c : Canvas) :
  exists ops, _create_cover_page env cfg c
              = mkCanvas (filename c) [] (pages c ++ [mkPage Cover ops]) (saved c).
Proof.
  unfold _create_cover_page, draw_logo, centered_text, showPage.
  destruct (and_exists env (logo_path cfg)); cbn [negb];
    [destruct (image_size env (fmt_opt (logo_path cfg)))|];
    eexists; reflexivity.
Qed.

Lemma create_back_cover_shape (c : Canvas) :
  exists ops, _create_back_cover env cfg c
              = mkCanvas (filename c) [] (pages c ++ [mkPage BackCover ops]) (saved c).
Proof.
  unfold _create_back_cover, draw_logo, centered_text, showPage.
  destruct (and_exists env (logo_path cfg));
    [destruct (image_size env (fmt_opt (logo_path cfg)))|];
    eexists; reflexivity.
Qed.

(** [create_catalog] on entries that all have a primary image path: the
    document is saved and holds one product page per entry, between the
    covers when they are asked for. *)
Lemma create_catalog_page_count (images : list ImageSet) (output_path : string)
    (include_cover : bool) :
  (forall im, im ∈ images -> is_Some (primary_image im)) ->
  exists c,
    create_catalog env cfg images output_path include_cover = Ret c /\
    saved c = true /\
    filename c = output_path /\
    product_page_count c = length images /\
    length (pages c) = (length images + if include_cover then 2 else 0)%nat.
Proof.
  intros Hall. unfold create_catalog.
  destruct include_cover.
  - destruct (create_cover_page_shape (new_canvas output_path)) as (cover & ->).
    match goal with
    | |- context [product_pages env cfg images 0%nat ?c1] =>
      destruct (product_pages_some images 0%nat c1 Hall) as (ps & -> & Hlen & Hkind)
    end.
    match goal with
    | |- context [_create_back_cover env cfg ?c2] =>
      destruct (create_back_cover_shape c2) as (back & ->)
    end.
    cbn [filename cur pages saved new_canvas].
    eexists. split; [reflexivity|].
    unfold product_page_count. cbn [save saved filename pages].
    repeat split.
    + rewrite !filter_app, (filter_product_all ps Hkind). cbn.
      repeat case_decide; try discriminate. cbn. rewrite app_nil_r. exact Hlen.
    + rewrite !length_app. cbn. lia.
  - destruct (product_pages_some images 0%nat (new_canvas output_path) Hall)
      as (ps & -> & Hlen & Hkind).
    eexists. split; [reflexivity|].
    unfold product_page_count. cbn [save saved filename pages new_canvas].
    repeat split.
    + cbn. rewrite (filter_product_all ps Hkind). exact Hlen.
    + cbn. lia.
Qed.

(** An entry without a primary image path aborts the composition: the
    exception leaves [create_catalog] before [save()]. *)
Lemma create_catalog_without_primary (im : ImageSet) (rest : list ImageSet)
    (output_path : string) (include_cover : bool) :
  primary_image im = None ->
  d_closeup im = None ->
  exists e, create_catalog env cfg (im :: rest) output_path include_cover = Raise e /\
            exn_class e = "TypeError".
Proof.
  intros Hp Hc. unfold create_catalog. cbn [product_pages].
  rewrite Hp, Hc. unfold _create_product_page. cbn [and_exists].
  eexists. split; reflexivity.
Qed.

End Compose.

(** * Properties of the batch orchestrator *)

Section Discovery.
Import Pipeline.

(** Lowering both the suffix and the name keeps a suffix match. *)
Lemma ends_with_lower (sfx : string) : forall s,
  ends_with sfx s = true -> ends_with (lower sfx) (lower s) = true.
Proof.
  induction s as [|ch s IH]; cbn [ends_with lower]; intros H.
  - apply orb_true_iff in H as [H|H]; [|discriminate].
    apply String.eqb_eq in H. subst sfx. reflexivity.
  - apply orb_true_iff in H as [H|H].
    + apply String.eqb_eq in H. subst sfx. cbn [lower].
      rewrite String.eqb_refl. reflexivity.
    + rewrite (IH H). apply orb_true_r.
Qed.

Lemma unsupported_no_match (name sfx ext : string) :
  supported_name name = false ->
  In ext SUPPORTED_FORMATS ->
  lower sfx = ext ->
  ends_with sfx name = false.
Proof.
  intros Hname Hext Hlow.
  destruct (ends_with sfx name) eqn:E; [|reflexivity].
  apply ends_with_lower in E. rewrite Hlow in E.
  unfold supported_name in Hname.
  assert (Hex : existsb (fun e => ends_with e (lower name)) SUPPORTED_FORMATS = true).
  { apply existsb_exists. exists ext. split; assumption. }
  congruence.
Qed.

Lemma glob_nil (input_dir : string) (names : list string) (sfx : string) :
  (forall name, name ∈ names -> ends_with sfx name = false) ->
  glob input_dir names sfx = [].
Proof.
  unfold glob. induction names as [|n names IH]; intros H; [reflexivity|].
  cbn [List.filter]. rewrite (H n) by set_solver.
  apply IH. intros name Hin. apply H. set_solver.
Qed.

(** A directory without a supported name yields no image file. *)
Lemma find_images_nil (input_dir : string) (names : list string) :
  (forall name, name ∈ names -> supported_name name = false) ->
  find_images input_dir names = [].
Proof.
  intros H. unfold find_images, SUPPORTED_FORMATS. cbn [flat_map].
  rewrite !glob_nil; [reflexivity|..];
    intros name Hin;
    (eapply unsupported_no_match;
     [exact (H name Hin) | | reflexivity]);
    unfold SUPPORTED_FORMATS; cbn; tauto.
Qed.

End Discovery.

Section Batch.
Import Pipeline.

Context {World : Type}.
Variable ext : Externals World.
Variable cfg : PipelineConfig.

Lemma process_all_length (image_files : list string) (images_dir : string) :
  forall st, length (process_all ext image_files images_dir st).1 = length image_files.
Proof.
  induction image_files as [|g rest IH]; intros st; [reflexivity|].
  cbn [process_all].
  destruct (process_single_garment ext g images_dir st) as [o st1].
  specialize (IH st1).
  destruct (process_all ext rest images_dir st1) as [rs st2].
  cbn in *. congruence.
Qed.

(** Per-item isolation: whatever an item does, raising included, the items
    after it are processed from the state it left, and the results keep
    the order of discovery. *)
Lemma process_all_app (pre : list string) (garment_path : string)
    (post : list string) (images_dir : string) (st : St World) :
  let '(rs1, st1) := process_all ext pre images_dir st in
  let '(o, st2) := process_single_garment ext garment_path images_dir st1 in
  let '(rs2, st3) := process_all ext post images_dir st2 in
  process_all ext (pre ++ garment_path :: post) images_dir st
  = ((rs1 ++ item_record garment_path o :: rs2)%list, st3).
Proof.
  revert st. induction pre as [|g pre IH]; intros st.
  - cbn [process_all app].
    destruct (process_single_garment ext garment_path images_dir st) as [o st2].
    destruct (process_all ext post images_dir st2) as [rs2 st3].
    destruct o; reflexivity.
  - cbn [process_all app].
    destruct (process_single_garment ext g images_dir st) as [o0 st0].
    specialize (IH st0).
    destruct (process_all ext pre images_dir st0) as [rs1 st1].
    destruct (process_single_garment ext garment_path images_dir st1) as [o st2].
    destruct (process_all ext post images_dir st2) as [rs2 st3].
    rewrite IH. reflexivity.
Qed.

Lemma item_record_raise (garment_path : string) (e : exn) :
  get_success (item_record garment_path (Raise e)) = false /\
  d_error (item_record garment_path (Raise e)) = Some (exn_msg e).
Proof. split; reflexivity. Qed.

Lemma filter_partition_length {A} (f : A -> bool) (l : list A) :
  (length (List.filter f l) + length (List.filter (fun x => negb (f x)) l))%nat
  = length l.
Proof.
  induction l as [|x l IH]; [reflexivity|].
  cbn [List.filter]. destruct (f x); cbn; lia.
Qed.

(** When every successful result carries a primary image path, a batch
    with at least one success returns its report and saves a document with
    one product page per successful item. *)
Lemma run_batch_document_pages (input_dir output_dir : string) (st : St World) :
  let image_files := find_images input_dir (ext_listdir ext (world st) input_dir) in
  let images_dir := path_join output_dir "HighRes_Images" in
  let done := process_all ext image_files images_dir st in
  let pdf := path_join output_dir ("Final_Catalog_" +:+ cfg_brand cfg +:+ ".pdf") in
  image_files <> [] ->
  (forall r, r ∈ done.1 -> get_success r = true -> is_Some (Assembler.primary_image r)) ->
  List.filter get_success done.1 <> [] ->
  exists report pages,
    run_batch ext cfg input_dir output_dir true st
    = (Ret report, mkSt (world done.2) (trace done.2 ++ [EvSavePdf pdf pages])) /\
    pdf_path report = Some pdf /\
    processed report = Some (length (List.filter get_success done.1)) /\
    length (filter (fun pg => Assembler.kind pg = Assembler.Product) pages)
    = length (List.filter get_success done.1).
Proof.
  intros image_files images_dir done pdf Hne. subst done.
  unfold run_batch. fold image_files.
  destruct image_files as [|g rest] eqn:Efiles; [congruence|].
  rewrite <- Efiles. fold images_dir.
  destruct (process_all ext image_files images_dir st) as [rs st1].
  cbn [fst snd]. intros Hprimary Hsome.
  destruct (List.filter get_success rs) as [|r0 ok] eqn:Eok; [congruence|].
  destruct (create_catalog_page_count (ext_fs ext (world st1))
              (cfg_assembler cfg) (r0 :: ok) pdf true) as (c & Hc & _ & _ & Hn & _).
  { intros im Him. rewrite <- Eok in Him.
    apply list_elem_of_In, filter_In in Him as [Him Hok].
    apply Hprimary; [apply list_elem_of_In; exact Him | exact Hok]. }
  fold pdf. rewrite Hc.
  eexists _, _. split; [reflexivity|]. repeat split. exact Hn.
Qed.

End Batch.

(** * The calls a run leaves in the trace *)

Section Traces.
Import Pipeline.

Context {World : Type}.
Variable ext : Externals World.

Lemma emits_ret (P : Event -> Prop) {A} (a : A) : emits (World := World) P (ret a).
Proof. intros st. exists []. cbn. rewrite app_nil_r. auto. Qed.

Lemma emits_call (P : Event -> Prop) {A} (ev : Event)
    (f : World -> Outcome A * World) :
  P ev -> emits P (call ev f).
Proof.
  intros Hev st. exists [ev]. unfold call.
  destruct (f (world st)) as [o w]. cbn. auto.
Qed.

Lemma emits_bind (P : Event -> Prop) {A B} (m : @IO World A) (k : A -> @IO World B) :
  emits P m -> (forall a, emits P (k a)) -> emits P (bind m k).
Proof.
  intros Hm Hk st. unfold bind.
  destruct (Hm st) as (evs1 & Ht1 & Hp1).
  destruct (m st) as [[a|e] st1]; cbn [snd] in *.
  - destruct (Hk a st1) as (evs2 & Ht2 & Hp2).
    exists (evs1 ++ evs2)%list. rewrite Ht2, Ht1, app_assoc.
    split; [reflexivity | apply Forall_app; auto].
  - exists evs1. auto.
Qed.

Lemma emits_weaken (P Q : Event -> Prop) {A} (m : @IO World A) :
  (forall e, P e -> Q e) -> emits P m -> emits Q m.
Proof.
  intros HPQ Hm st. destruct (Hm st) as (evs & Ht & Hp).
  exists evs. split; [exact Ht|]. eapply Forall_impl; eauto.
Qed.

Lemma decode_output_emits (output : gmap string string) (key output_dir : string)
    (jid : option string) :
  emits output_event (decode_output ext output key output_dir jid).
Proof.
  unfold decode_output. destruct (output !! key); [|apply emits_ret].
  apply emits_bind; [apply emits_call; exact I | intros; apply emits_ret].
Qed.

(** What [submit_workflow_with_images] does with the job result. *)
Lemma after_submit_emits (output_dir : string) (result : RunPod.JobResult) :
  emits output_event
    (if negb (RunPod.success result) then
       ret (mkImageSet (Some false) (RunPod.error result)
              None None None None None None None None None)
     else
       bind (decode_output ext (default ∅ (RunPod.output result)) "full_body"
               output_dir (RunPod.job_id result)) (fun full_body_path =>
       bind (decode_output ext (default ∅ (RunPod.output result)) "closeup"
               output_dir (RunPod.job_id result)) (fun closeup_path =>
       bind (decode_output ext (default ∅ (RunPod.output result)) "final"
               output_dir (RunPod.job_id result)) (fun output_path =>
       ret (mkImageSet (Some true) None (RunPod.job_id result) full_body_path
              closeup_path output_path None None None None None))))).
Proof.
  destruct (negb (RunPod.success result)); [apply emits_ret|].
  repeat (apply emits_bind; [apply decode_output_emits | intros]).
  apply emits_ret.
Qed.

Lemma after_workflow_emits (garment_path output_dir : string) (result : ImageSet) :
  emits output_event
    (if get_success result && truthy_str (d_full_body_path result) then
       bind (call (EvCloseup (fmt_opt (d_full_body_path result))
                     (path_join output_dir
                        ("closeup_" +:+ path_stem garment_path +:+ ".png")))
               (ext_create_closeup ext (fmt_opt (d_full_body_path result))
                  (path_join output_dir
                     ("closeup_" +:+ path_stem garment_path +:+ ".png"))))
            (fun _ => ret (set_closeup_path result
                             (path_join output_dir
                                ("closeup_" +:+ path_stem garment_path +:+ ".png"))))
     else ret result).
Proof.
  destruct (_ && _); [|apply emits_ret].
  apply emits_bind; [apply emits_call; exact I | intros; apply emits_ret].
Qed.

Lemma output_event_item (e : Event) : output_event e -> item_event e.
Proof. destruct e; cbn; tauto. Qed.

Lemma submit_workflow_emits (garment_image_path output_dir : string) :
  emits item_event (submit_workflow_with_images ext garment_image_path output_dir).
Proof.
  unfold submit_workflow_with_images.
  repeat (apply emits_bind; [apply emits_call; exact I | intros]).
  eapply emits_weaken; [exact output_event_item | apply after_submit_emits].
Qed.

Lemma process_single_garment_emits (garment_path output_dir : string) :
  emits item_event (process_single_garment ext garment_path output_dir).
Proof.
  unfold process_single_garment.
  repeat (apply emits_bind; [apply emits_call; exact I | intros]).
  apply emits_bind; [apply submit_workflow_emits | intros result].
  eapply emits_weaken; [exact output_event_item | apply after_workflow_emits].
Qed.

Lemma process_all_emits (image_files : list string) (images_dir : string) :
  forall st, exists evs,
    trace (process_all ext image_files images_dir st).2 = (trace st ++ evs)%list /\
    Forall item_event evs.
Proof.
  induction image_files as [|g rest IH]; intros st; cbn [process_all].
  - exists []. cbn. rewrite app_nil_r. auto.
  - destruct (process_single_garment_emits g images_dir st) as (evs1 & Ht1 & Hp1).
    destruct (process_single_garment ext g images_dir st) as [o st1].
    destruct (IH st1) as (evs2 & Ht2 & Hp2).
    destruct (process_all ext rest images_dir st1) as [rs st2].
    cbn [snd] in *. exists (evs1 ++ evs2)%list.
    rewrite Ht2, Ht1, app_assoc. split; [reflexivity | apply Forall_app; auto].
Qed.

End Traces.


Section BatchReport.
Import Pipeline PipelineRuns.

Context {World : Type}.
Variable ext : Externals World.
Variable cfg : PipelineConfig.

(** C6.  When no entry of the input directory has a supported extension,
    compared without regard to case, [run_batch] returns a report with
    [success = False] and the message [No images found], and leaves the
    world and the trace as they were: nothing was prepared, nothing was
    submitted. *)
Theorem run_batch_no_images (input_dir output_dir : string)
    (generate_pdf : bool) (st : St World) :
  (forall name, name ∈ ext_listdir ext (world st) input_dir ->
                supported_name name = false) ->
  exists report,
    run_batch ext cfg input_dir output_dir generate_pdf st = (Ret report, st) /\
    success report = false /\
    (exists msg, error report = Some msg /\ msg <> "") /\
    results report = None.
Proof.
  intros H. unfold run_batch. rewrite (find_images_nil _ _ H).
  eexists. split; [reflexivity|]. split; [reflexivity|].
  split; [|reflexivity]. eexists. split; [reflexivity | discriminate].
Qed.

(** C10.  When at least one image is discovered, every report [run_batch]
    returns has [success = True], one result per discovered file, and
    [processed + failed = total]; with no successful item its [pdf_path] is
    unset.  And when every item failed, [run_batch] does return such a
    report. *)
Theorem run_batch_report_counts (input_dir output_dir : string)
    (generate_pdf : bool) (st : St World) :
  let image_files := find_images input_dir (ext_listdir ext (world st) input_dir) in
  let images_dir := path_join output_dir "HighRes_Images" in
  image_files <> [] ->
  (forall report st',
     run_batch ext cfg input_dir output_dir generate_pdf st = (Ret report, st') ->
     success report = true /\
     exists p f rs,
       total report = Some (length image_files) /\
       processed report = Some p /\
       failed report = Some f /\
       results report = Some rs /\
       length rs = length image_files /\
       (p + f)%nat = length image_files /\
       (p = 0%nat -> pdf_path report = None)) /\
  ((forall r, r ∈ (process_all ext image_files images_dir st).1 ->
              get_success r = false) ->
   exists report st',
     run_batch ext cfg input_dir output_dir generate_pdf st = (Ret report, st') /\
     success report = true /\
     processed report = Some 0%nat /\
     failed report = total report /\
     pdf_path report = None).
Proof.
  intros image_files images_dir Hne. unfold run_batch. fold image_files.
  destruct image_files as [|g rest] eqn:Efiles; [congruence|].
  rewrite <- Efiles. fold images_dir.
  pose proof (process_all_length ext image_files images_dir st) as Hlen.
  destruct (process_all ext image_files images_dir st) as [rs st1].
  cbn [fst] in *.
  pose proof (filter_partition_length get_success rs) as Hcount.
  split.
  - intros report st' Hrun.
    destruct generate_pdf, (List.filter get_success rs) as [|r0 ok] eqn:Eok;
      try destruct (Assembler.create_catalog _ _ _ _ _) as [canvas|e];
      try discriminate Hrun;
      injection Hrun as <- <-; (split; [reflexivity|]);
      eexists _, _, _; cbn [total processed failed results pdf_path];
      repeat split; try reflexivity; try lia;
      try (intros _; reflexivity); try discriminate;
      cbn [length] in *; lia.
  - intros Hall.
    assert (Eok : List.filter get_success rs = []).
    { clear -Hall. induction rs as [|r rs IH]; [reflexivity|].
      cbn [List.filter]. rewrite (Hall r) by set_solver.
      apply IH. intros r' Hr'. apply Hall. set_solver. }
    rewrite Eok in Hcount |- *. cbn [length] in *.
    destruct generate_pdf; eexists _, _; (split; [reflexivity|]);
      cbn [success processed failed total pdf_path];
      repeat split; f_equal; lia.
Qed.

End BatchReport.

Section BatchRuns.
Import Pipeline PipelineRuns.

(** A directory that holds a text file, a readme and a GIF. *)
Lemma run_batch_no_images_witness :
  exists report,
    run_batch (disk_ext no_photos a_is_corrupt full_body_only) bono_pipeline
      "/in" "/out" true start = (Ret report, start) /\
    success report = false /\
    (exists msg, error report = Some msg /\ msg <> "") /\
    results report = None.
Proof.
  apply (run_batch_no_images (disk_ext no_photos a_is_corrupt full_body_only)
           bono_pipeline "/in" "/out" true start).
  intros name Hin. apply list_elem_of_In in Hin. vm_compute in Hin.
  destruct Hin as [<-|[<-|[<-|[]]]]; reflexivity.
Defined.

(** A batch of two photos that both fail to open. *)
Lemma run_batch_report_counts_witness :
  exists report st',
    run_batch (disk_ext two_photos all_corrupt full_body_only) bono_pipeline
      "/in" "/out" true start = (Ret report, st') /\
    success report = true /\
    processed report = Some 0%nat /\
    failed report = total report /\
    pdf_path report = None.
Proof.
  apply (run_batch_report_counts (disk_ext two_photos all_corrupt full_body_only)
           bono_pipeline "/in" "/out" true start).
  - vm_compute. discriminate.
  - intros r Hin. apply list_elem_of_In in Hin. vm_compute in Hin.
    destruct Hin as [<-|[<-|[]]]; reflexivity.
Defined.

(** C2 on the code.  A batch of two photos: the first cannot be opened,
    the second is rendered, and the workflow returns the full-body render
    only.  Both items are processed, but the successful result carries its
    image under [full_body_path], a key [create_catalog] does not read:
    the page has no image path, [os.path.exists(None)] raises [TypeError],
    and [run_batch] ends with that exception: no report, no document. *)
Theorem run_batch_loses_report_on_full_body_only :
  let run := run_batch (disk_ext two_photos a_is_corrupt full_body_only)
               bono_pipeline "/in" "/out" true start in
  (exists e, run.1 = Raise e /\ exn_class e = "TypeError") /\
  (forall p pages, EvSavePdf p pages ∉ trace run.2) /\
  (process_all (disk_ext two_photos a_is_corrupt full_body_only)
     ["/in/a.png"; "/in/b.png"] "/out/HighRes_Images" start).1
  = [ mkImageSet (Some false) (Some "cannot identify image file /in/a.png")
        None None None None (Some "a") None None None None;
      mkImageSet (Some true) None (Some "job-1")
        (Some "/out/HighRes_Images/full_body_job-1.png")
        (Some "/out/HighRes_Images/closeup_b.png") None
        (Some "b") None None None None ].
Proof.
  cbv zeta. split; [|split].
  - eexists. split; vm_compute; reflexivity.
  - intros p pages Hin. apply list_elem_of_In in Hin. vm_compute in Hin.
    repeat (destruct Hin as [Hin|Hin]; [discriminate|]). exact Hin.
  - vm_compute. reflexivity.
Qed.

(** The same batch when the workflow also returns a final image: the
    report counts one success and one failure, and the document has one
    product page. *)
Lemma run_batch_with_final_image :
  let run := run_batch (disk_ext two_photos a_is_corrupt full_body_and_final)
               bono_pipeline "/in" "/out" true start in
  exists report pages,
    run.1 = Ret report /\
    processed report = Some 1%nat /\ failed report = Some 1%nat /\
    last (trace run.2) = Some (EvSavePdf "/out/Final_Catalog_bono.pdf" pages) /\
    map Assembler.kind pages = [Assembler.Cover; Assembler.Product; Assembler.BackCover].
Proof.
  cbv zeta. eexists _, _. repeat split; vm_compute; reflexivity.
Qed.

End BatchRuns.

Section ComposeClaims.
Import Assembler ImageRuns.

(** C7, as the code has it.  [create_catalog] itself accepts an empty
    entry list: it composes the cover and the back cover and saves the
    document.  Inside the pipeline the empty case does not reach it:
    [generate_catalog_from_images] raises [ValueError] when it finds no
    image, before the assembler is called, and [run_batch] skips the
    catalog when no item succeeded: it returns its report without a
    document path, from the state the item loop left, and no document is
    saved in the run.  An entry whose primary image path names no file on
    disk still gets its page: the page is closed, it carries the product
    title and no image of that path.  And a list whose entries all have a
    primary image path is composed to the end and saved, with one product
    page per entry. *)
Theorem create_catalog_missing_assets :
  (forall env cfg output_path,
     exists c, create_catalog env cfg [] output_path true = Ret c /\
               saved c = true /\ filename c = output_path /\
               map kind (pages c) = [Cover; BackCover]) /\
  (forall (World : Type) (ext : Pipeline.Externals World) pcfg images_dir
          output_path (st : Pipeline.St World),
     (forall name, name ∈ Pipeline.ext_listdir ext (Pipeline.world st) images_dir ->
                   ends_with ".png" name = false) ->
     exists e,
       Pipeline.generate_catalog_from_images ext pcfg images_dir output_path st
       = (Raise e, st) /\
       exn_class e = "ValueError") /\
  (forall (World : Type) (ext : Pipeline.Externals World) pcfg input_dir
          output_dir generate_pdf (st : Pipeline.St World),
     let image_files :=
       Pipeline.find_images input_dir
         (Pipeline.ext_listdir ext (Pipeline.world st) input_dir) in
     let done :=
       Pipeline.process_all ext image_files
         (path_join output_dir "HighRes_Images") st in
     image_files <> [] ->
     List.filter get_success done.1 = [] ->
     exists report evs,
       Pipeline.run_batch ext pcfg input_dir output_dir generate_pdf st
       = (Ret report, done.2) /\
       Pipeline.pdf_path report = None /\
       Pipeline.processed report = Some 0%nat /\
       Pipeline.trace done.2 = (Pipeline.trace st ++ evs)%list /\
       Forall Pipeline.item_event evs) /\
  (forall env cfg p closeup product_name product_code page_number c,
     path_exists env p = false ->
     exists ops,
       _create_product_page env cfg (Some p) closeup product_name product_code
         page_number c
       = Ret (mkCanvas (filename c) [] (pages c ++ [mkPage Product ops]) (saved c)) /\
       DrawString page_margin (page_margin + 30)%Q product_name ∈ ops /\
       (forall r, DrawImage p r ∈ ops -> DrawImage p r ∈ cur c)) /\
  (forall env cfg images output_path include_cover,
     (forall im, im ∈ images -> is_Some (primary_image im)) ->
     exists c, create_catalog env cfg images output_path include_cover = Ret c /\
               saved c = true /\
               product_page_count c = length images).
Proof.
  split; [|split; [|split; [|split]]].
  - intros env cfg output_path. unfold create_catalog. cbn [product_pages].
    destruct (create_cover_page_shape env cfg (new_canvas output_path))
      as (cover & ->).
    match goal with
    | |- context [_create_back_cover env cfg ?c2] =>
      destruct (create_back_cover_shape env cfg c2) as (back & ->)
    end.
    eexists. split; [reflexivity|]. repeat split.
  - intros World ext pcfg images_dir output_path st Hnone.
    unfold Pipeline.generate_catalog_from_images.
    rewrite (glob_nil _ _ _ Hnone). cbn [sorted fold_right map].
    eexists. split; reflexivity.
  - intros World ext pcfg input_dir output_dir generate_pdf st image_files done Hne.
    subst done.
    unfold Pipeline.run_batch. fold image_files.
    destruct image_files as [|g rest] eqn:Efiles; [congruence|].
    rewrite <- Efiles.
    destruct (process_all_emits ext image_files
                (path_join output_dir "HighRes_Images") st) as (evs & Ht & Hp).
    destruct (Pipeline.process_all ext image_files
                (path_join output_dir "HighRes_Images") st) as [rs st1].
    cbn [fst snd] in *. intros Hnone. rewrite Hnone.
    exists (Pipeline.mkReport true None (Some (length image_files)) (Some 0%nat)
              (Some (length (List.filter (fun r => negb (get_success r)) rs)))
              None (Some (path_join output_dir "HighRes_Images")) (Some rs)), evs.
    split; [destruct generate_pdf; reflexivity|].
    split; [reflexivity|]. split; [reflexivity|]. split; [exact Ht | exact Hp].
  - intros env cfg p closeup product_name product_code page_number c Hmissing.
    destruct (create_product_page_some env cfg p closeup product_name
                product_code page_number c) as (ops & Hpage & Htitle & Himgs).
    exists ops. split; [exact Hpage|]. split; [exact Htitle|].
    intros r Hin. destruct (Himgs p r Hin) as [Hcur|Hex]; [exact Hcur|congruence].
  - intros env cfg images output_path include_cover Hall.
    destruct (create_catalog_page_count env cfg images output_path include_cover Hall)
      as (c & Hc & Hs & _ & Hn & _).
    exists c. auto.
Qed.

(** A page for an entry whose image file is missing. *)
Lemma create_catalog_missing_assets_witness :
  exists ops,
    _create_product_page wide_env bono_config (Some "/img/missing.png") None
      "Style #1" None 1 (new_canvas "out.pdf")
    = Ret (mkCanvas "out.pdf" [] [mkPage Product ops] false) /\
    DrawString page_margin (page_margin + 30)%Q "Style #1" ∈ ops /\
    (forall r, DrawImage "/img/missing.png" r ∉ ops).
Proof.
  destruct create_catalog_missing_assets as (_ & _ & _ & Hpage & _).
  destruct (Hpage wide_env bono_config "/img/missing.png" None "Style #1" None
              1%nat (new_canvas "out.pdf")) as (ops & Heq & Htitle & Himgs).
  { reflexivity. }
  exists ops. split; [exact Heq|]. split; [exact Htitle|].
  intros r Hin. apply Himgs in Hin. cbn in Hin. inversion Hin.
Defined.

(** C7 as stated fails on an empty entry list: [create_catalog] raises
    nothing, composes the two covers and saves the document. *)
Lemma create_catalog_accepts_empty_list :
  exists c,
    create_catalog wide_env bono_config [] "out.pdf" true = Ret c /\
    saved c = true /\
    map kind (pages c) = [Cover; BackCover].
Proof. eexists. repeat split; vm_compute; reflexivity. Qed.

End ComposeClaims.

(** * Further properties of the remote job client *)

Section PollResults.
Import RunPod RunPodRuns RunPodMoreRuns.

Variable c : Client.
Variable env : nat -> Reply.
Variable jid : option string.
Variable start : Q.

(** Whatever the endpoint answers, a result of the polling loop carries
    the job id it was given, has status [timeout] or one of COMPLETED,
    FAILED, CANCELLED (never a status still in progress), and is
    successful exactly when its status is COMPLETED. *)
Theorem poll_result_shape (fuel : nat) : forall (now : Q) (i : nat) (run : Run) (r : JobResult),
  _poll_for_result fuel c env jid start now i = Some run ->
  result run = Ret r ->
  job_id r = jid /\
  (status r = Some "timeout" \/ terminal_status (status r) = true) /\
  (success r = true <-> str_is (status r) "COMPLETED" = true).
Proof.
  induction fuel as [|fuel IH]; intros now i run r Hrun Hres; [discriminate|].
  cbn [_poll_for_result] in Hrun.
  destruct (timed_out c start now).
  { injection Hrun as <-. injection Hres as <-. cbn.
    repeat split; auto; discriminate. }
  destruct (reply (env i)) as [resp|e].
  2:{ injection Hrun as <-. discriminate Hres. }
  destruct (negb (status_code resp =? 200)%Z); [eapply IH; eassumption|].
  unfold terminal_status.
  destruct (str_is (b_status (json resp)) "COMPLETED") eqn:Ec.
  { injection Hrun as <-. injection Hres as <-. cbn [job_id success status].
    rewrite Ec. repeat split; auto. }
  destruct (str_is (b_status (json resp)) "FAILED") eqn:Ef.
  { injection Hrun as <-. injection Hres as <-. cbn [job_id success status].
    rewrite Ec, Ef. repeat split; auto; discriminate. }
  destruct (str_is (b_status (json resp)) "CANCELLED") eqn:Ek.
  { injection Hrun as <-. injection Hres as <-. cbn [job_id success status].
    rewrite Ec, Ef, Ek. repeat split; auto; discriminate. }
  eapply IH; eassumption.
Qed.

(** The loop returns at the first terminal status: when the first [k]
    queries keep it going, the deadline has not passed at any of its
    [k + 1] checks and query [k] reports a terminal status, the loop
    returns right after that query (no further sleep), having sent
    [k + 1] queries, with that status. *)
Theorem poll_returns_at_first_terminal (k fuel : nat) :
  (forall j, (j < k)%nat -> keeps_polling (env j)) ->
  (forall j, (j <= k)%nat -> timed_out c start (clock_at c env start j) = false) ->
  reports_terminal (env k) ->
  (k < fuel)%nat ->
  exists r,
    _poll_for_result fuel c env jid start start 0%nat
    = Some (mkRun (Ret r) (clock_at c env start k + latency (env k))%Q (S k)) /\
    job_id r = jid /\
    (exists resp, reply (env k) = Ret resp /\ status r = b_status (json resp)) /\
    success r = str_is (status r) "COMPLETED".
Proof.
  intros Hkeep Hclock (resp & Hr & Hcode & Hterm).
  assert (Hgen : forall d i f, (i + d = k)%nat -> (d < f)%nat ->
            exists r,
              _poll_for_result f c env jid start (clock_at c env start i) i
              = Some (mkRun (Ret r) (clock_at c env start k + latency (env k))%Q (S k)) /\
              job_id r = jid /\
              status r = b_status (json resp) /\
              success r = str_is (status r) "COMPLETED").
  { induction d as [|d IH]; intros i f Hik Hf.
    - assert (i = k) by lia. subst i.
      destruct f as [|f]; [lia|]. cbn [_poll_for_result].
      rewrite (Hclock k) by lia. rewrite Hr, Hcode. cbn [Z.eqb Pos.eqb negb].
      unfold terminal_status in Hterm.
      destruct (str_is (b_status (json resp)) "COMPLETED") eqn:Ec.
      { eexists. split; [reflexivity|]. cbn. rewrite Ec. auto. }
      destruct (str_is (b_status (json resp)) "FAILED") eqn:Ef.
      { eexists. split; [reflexivity|]. cbn. rewrite Ec. auto. }
      destruct (str_is (b_status (json resp)) "CANCELLED") eqn:Ek; [|discriminate].
      eexists. split; [reflexivity|]. cbn. rewrite Ec. auto.
    - destruct f as [|f]; [lia|].
      rewrite poll_step; [|apply Hclock; lia | apply Hkeep; lia].
      apply (IH (S i) f); lia. }
  intros Hfuel.
  destruct (Hgen k 0%nat fuel) as (r & Hrun & Hj & Hs & Hok); [lia | exact Hfuel|].
  exists r. cbn [clock_at] in Hrun. repeat split; try assumption.
  exists resp. auto.
Qed.

(** A result with status [timeout] is returned only after the deadline. *)
Lemma poll_timeout_is_late (fuel : nat) : forall (now : Q) (i : nat) (run : Run) (r : JobResult),
  _poll_for_result fuel c env jid start now i = Some run ->
  result run = Ret r ->
  status r = Some "timeout" ->
  (inject_Z (timeout c) < end_time run - start)%Q.
Proof.
  induction fuel as [|fuel IH]; intros now i run r Hrun Hres Hst; [discriminate|].
  cbn [_poll_for_result] in Hrun.
  destruct (timed_out c start now) eqn:Hto.
  { injection Hrun as <-. cbn. apply timed_out_true in Hto. exact Hto. }
  destruct (reply (env i)) as [resp|e].
  2:{ injection Hrun as <-. discriminate. }
  destruct (negb (status_code resp =? 200)%Z); [eapply IH; eassumption|].
  destruct (str_is (b_status (json resp)) "COMPLETED") eqn:Ec.
  { injection Hrun as <-. injection Hres as <-. cbn in Hst.
    rewrite Hst in Ec. discriminate. }
  destruct (str_is (b_status (json resp)) "FAILED") eqn:Ef.
  { injection Hrun as <-. injection Hres as <-. cbn in Hst.
    rewrite Hst in Ef. discriminate. }
  destruct (str_is (b_status (json resp)) "CANCELLED") eqn:Ek.
  { injection Hrun as <-. injection Hres as <-. cbn in Hst.
    rewrite Hst in Ek. discriminate. }
  eapply IH; eassumption.
Qed.

End PollResults.

Section PollResultRuns.
Import RunPod RunPodRuns RunPodMoreRuns.

Lemma poll_result_shape_witness :
  let r := mkJobResult true (Some "job-1") (Some "COMPLETED")
             (Some {[ "final" := "ZmluYWw=" ]}) None None in
  job_id r = Some "job-1" /\
  (status r = Some "timeout" \/ terminal_status (status r) = true) /\
  (success r = true <-> str_is (status r) "COMPLETED" = true).
Proof.
  cbv zeta.
  apply (poll_result_shape client_10_5 done_at_second (Some "job-1") 0 5 0 0%nat
           (mkRun (Ret (mkJobResult true (Some "job-1") (Some "COMPLETED")
                          (Some {[ "final" := "ZmluYWw=" ]}) None None))
                  7%Q 2%nat)).
  - vm_compute. reflexivity.
  - reflexivity.
Defined.

Lemma poll_returns_at_first_terminal_witness :
  exists r,
    _poll_for_result 5 client_10_5 done_at_second (Some "job-1") 0 0 0%nat
    = Some (mkRun (Ret r)
              (clock_at client_10_5 done_at_second 0 1
               + latency (done_at_second 1%nat))%Q 2%nat) /\
    success r = str_is (status r) "COMPLETED".
Proof.
  destruct (poll_returns_at_first_terminal client_10_5 done_at_second
              (Some "job-1") 0 1 5) as (r & Hrun & _ & _ & Hok).
  - intros j Hj. assert (j = 0)%nat as -> by lia.
    eexists. split; [reflexivity|]. right. reflexivity.
  - intros j Hj. destruct j as [|[|j]]; [reflexivity | reflexivity | lia].
  - eexists. repeat split; reflexivity.
  - lia.
  - exists r. split; assumption.
Defined.

End PollResultRuns.

Section PollBudget.
Import RunPod.

Variable c : Client.
Variable env : nat -> Reply.
Variable jid : option string.
Variable start : Q.

Hypothesis interval_nonneg : 0 <= poll_interval c.
Hypothesis latency_nonneg : forall i, (0 <= latency (env i))%Q.

Lemma interval_nonneg_Q : (0 <= inject_Z (poll_interval c))%Q.
Proof. change 0%Q with (inject_Z 0). rewrite <- Zle_Qle. exact interval_nonneg. Qed.

(** Each query before the [i]-th was followed by a sleep, so when the
    loop returns after [n] queries, [n - 1] poll intervals fit in the
    timeout. *)
Lemma poll_queries_invariant (fuel : nat) : forall (now : Q) (i : nat) (run : Run),
  (inject_Z (Z.of_nat i) * inject_Z (poll_interval c) <= now - start)%Q ->
  _poll_for_result fuel c env jid start now i = Some run ->
  queries run = i \/
  (inject_Z (Z.of_nat (queries run) - 1) * inject_Z (poll_interval c)
   <= inject_Z (timeout c))%Q.
Proof.
  induction fuel as [|fuel IH]; intros now i run Hinv Hrun; [discriminate|].
  cbn [_poll_for_result] in Hrun.
  destruct (timed_out c start now) eqn:Hto.
  { injection Hrun as <-. left. reflexivity. }
  apply timed_out_false in Hto.
  assert (Hhere : (inject_Z (Z.of_nat (S i) - 1) * inject_Z (poll_interval c)
                   <= inject_Z (timeout c))%Q).
  { replace (Z.of_nat (S i) - 1) with (Z.of_nat i) by lia. lra. }
  assert (Hnext : forall run',
            _poll_for_result fuel c env jid start
              (now + latency (env i) + inject_Z (poll_interval c))%Q (S i) = Some run' ->
            (inject_Z (Z.of_nat (queries run') - 1) * inject_Z (poll_interval c)
             <= inject_Z (timeout c))%Q).
  { intros run' Hrun'. apply IH in Hrun' as [Hq | Hq].
    - rewrite Hq. exact Hhere.
    - exact Hq.
    - rewrite Nat2Z.inj_succ, <- Z.add_1_r, inject_Z_plus.
      pose proof (latency_nonneg i). pose proof interval_nonneg_Q.
      change (inject_Z 1) with 1%Q. lra. }
  destruct (reply (env i)) as [resp|e].
  2:{ injection Hrun as <-. right. exact Hhere. }
  destruct (negb (status_code resp =? 200)%Z); [right; auto|].
  destruct (str_is (b_status (json resp)) "COMPLETED");
    [injection Hrun as <-; right; exact Hhere|].
  destruct (str_is (b_status (json resp)) "FAILED");
    [injection Hrun as <-; right; exact Hhere|].
  destruct (str_is (b_status (json resp)) "CANCELLED");
    [injection Hrun as <-; right; exact Hhere|].
  right. auto.
Qed.

End PollBudget.

Section SubmitJobMore.
Import RunPod RunPodRuns RunPodMoreRuns.

(** The polling loop sends at most [timeout / poll_interval + 1] status
    queries, whatever the endpoint answers: if it returns after [n >= 1]
    queries then [(n - 1) * poll_interval <= timeout]. *)
Theorem poll_query_budget (c : Client) (env : nat -> Reply)
    (jid : option string) (start : Q) (fuel : nat) (run : Run) :
  0 <= poll_interval c ->
  (forall i, (0 <= latency (env i))%Q) ->
  _poll_for_result fuel c env jid start start 0%nat = Some run ->
  queries run = 0%nat \/
  (Z.of_nat (queries run) - 1) * poll_interval c <= timeout c.
Proof.
  intros HP Hlat Hrun.
  destruct (poll_queries_invariant c env jid start HP Hlat fuel start 0%nat run)
    as [H|H]; [change (inject_Z (Z.of_nat 0)) with 0%Q; lra | exact Hrun | left; exact H |].
  right. rewrite <- inject_Z_mult, <- Zle_Qle in H. exact H.
Qed.

Lemma poll_query_budget_witness :
  let run := mkRun (Ret (timeout_result client_10_5 (Some "job-1"))) 16%Q 2%nat in
  queries run = 0%nat \/
  (Z.of_nat (queries run) - 1) * poll_interval client_10_5 <= timeout client_10_5.
Proof.
  cbv zeta.
  apply (poll_query_budget client_10_5 slow_env (Some "job-1") 0 10).
  - vm_compute. discriminate.
  - intros i. vm_compute. discriminate.
  - vm_compute. reflexivity.
Defined.

(** The execution time of a waited-for job is counted from the call of
    [submit_job], the time of the submission request included, while the
    deadline of the loop is counted from the acceptance. *)
Theorem submit_job_execution_time (fuel : nat) (c : Client) (post : Reply)
    (env : nat -> Reply) (now : Q) (run : Run) (r : JobResult) :
  accepted post ->
  submit_job fuel c post env true now = Some run ->
  result run = Ret r ->
  execution_time r = Some (end_time run - now)%Q /\
  (status r = Some "timeout" ->
   (inject_Z (timeout c) < end_time run - (now + latency post))%Q).
Proof.
  intros (resp & Hpost & Hcode) Hrun Hres.
  unfold submit_job in Hrun. rewrite Hpost, Hcode in Hrun.
  cbn [Z.eqb Pos.eqb negb] in Hrun.
  destruct (_poll_for_result fuel c env (b_id (json resp))
              (now + latency post) (now + latency post) 0%nat)
    as [run0|] eqn:Hpoll; [|discriminate].
  destruct (result run0) as [r0|e] eqn:Hres0.
  2:{ injection Hrun as <-. congruence. }
  injection Hrun as <-. cbn [result end_time] in *. injection Hres as <-.
  split; [reflexivity|]. cbn [status set_execution_time]. intros Hst.
  exact (poll_timeout_is_late c env (b_id (json resp)) (now + latency post)%Q
           fuel _ _ run0 r0 Hpoll Hres0 Hst).
Qed.

Lemma submit_job_execution_time_witness :
  let r := set_execution_time (timeout_result client_10_5 (Some "job-1")) (18 - 0)%Q in
  let run := mkRun (Ret r) 18%Q 2%nat in
  execution_time r = Some (end_time run - 0)%Q /\
  (status r = Some "timeout" ->
   (inject_Z (timeout client_10_5) < end_time run - (0 + latency slow_post))%Q).
Proof.
  cbv zeta.
  apply (submit_job_execution_time 10 client_10_5 slow_post slow_env 0).
  - eexists. split; reflexivity.
  - vm_compute. reflexivity.
  - reflexivity.
Defined.

End SubmitJobMore.

(** * Further properties of the folder watcher *)

Section WatcherInvariants.
Import Drive DriveRuns.

Variable callback : nat -> list DriveFile -> Outcome unit.

Lemma add_ids_subseteq (files : list DriveFile) (known : gset string) :
  known ⊆ add_ids files known.
Proof. rewrite add_ids_union. set_solver. Qed.

(** What one poll does to the state, whatever the listing and the
    callback do: the known set only grows, and at most one call is added,
    of a non-empty list of files unknown before the poll. *)
Lemma poll_once_grows (st : WatchState) (o : Outcome (list DriveFile)) :
  known_files st ⊆ known_files (poll_once callback st o) /\
  exists new,
    calls (poll_once callback st o) = (calls st ++ new)%list /\
    Forall (fun fs => fs <> [] /\ forall f, f ∈ fs -> id f ∉ known_files st) new.
Proof.
  unfold poll_once. destruct o as [current|e].
  2:{ split; [set_solver|]. exists []. rewrite app_nil_r. auto. }
  destruct (new_files (known_files st) current) as [|f nf] eqn:E.
  { split; [set_solver|]. exists []. rewrite app_nil_r. auto. }
  assert (Hnew : Forall (fun fs => fs <> [] /\ forall g, g ∈ fs -> id g ∉ known_files st)
                   [f :: nf]).
  { constructor; [|constructor]. split; [discriminate|].
    intros g Hg. rewrite <- E in Hg. apply elem_of_new_files in Hg. tauto. }
  destruct (callback _ _); cbn [known_files calls].
  - split; [apply add_ids_subseteq|]. exists [f :: nf]. auto.
  - split; [set_solver|]. exists [f :: nf]. auto.
Qed.

Lemma watch_loop_state_grows (ticks : list Tick) : forall st : WatchState,
  let st' := (watch_loop callback ticks st).1 in
  known_files st ⊆ known_files st' /\
  exists new,
    calls st' = (calls st ++ new)%list /\
    Forall (fun fs => fs <> [] /\ forall f, f ∈ fs -> id f ∉ known_files st) new.
Proof.
  induction ticks as [|t ticks IH]; intros st; cbn [watch_loop].
  - cbn. split; [set_solver|]. exists []. rewrite app_nil_r. auto.
  - destruct (stop_set t).
    + cbn. split; [set_solver|]. exists []. rewrite app_nil_r. auto.
    + destruct (poll_once_grows st (listing t)) as (Hk1 & new1 & Hc1 & Hn1).
      destruct (IH (poll_once callback st (listing t))) as (Hk2 & new2 & Hc2 & Hn2).
      cbv zeta in *. split; [set_solver|].
      exists (new1 ++ new2)%list. split.
      * rewrite Hc2, Hc1. symmetry. apply app_assoc.
      * apply Forall_app. split; [exact Hn1|].
        eapply Forall_impl; [exact Hn2|].
        intros fs [Hne Hfs]. split; [exact Hne|].
        intros f Hf Hin. apply (Hfs f Hf). set_solver.
Qed.

(** Over a whole watch session, whatever the listings and the callback do:
    the known set only grows, earlier calls are kept, and the callback is
    only ever invoked with a non-empty list of files, none of which was
    known when the session reached that state. *)
Theorem watch_loop_grows (ticks : list Tick) (st : WatchState) :
  let st' := (watch_loop callback ticks st).1 in
  known_files st ⊆ known_files st' /\
  exists new,
    calls st' = (calls st ++ new)%list /\
    Forall (fun fs => fs <> [] /\ forall f, f ∈ fs -> id f ∉ known_files st) new.
Proof. apply watch_loop_state_grows. Qed.

(** Polls whose listing raises leave no trace: dropping them from the
    schedule changes neither the final state nor whether the loop
    stopped. *)
Theorem failed_listings_are_skipped (ticks : list Tick) : forall st : WatchState,
  watch_loop callback (List.filter effective ticks) st
  = watch_loop callback ticks st.
Proof.
  induction ticks as [|t ticks IH]; intros st; [reflexivity|].
  cbn [List.filter watch_loop]. unfold effective at 1.
  destruct (stop_set t) eqn:Hs; cbn [orb].
  - cbn [watch_loop]. rewrite Hs. reflexivity.
  - destruct (listing t) as [fs|e] eqn:Hl; cbn [is_ret].
    + cbn [watch_loop]. rewrite Hs, Hl. apply IH.
    + cbn [poll_once]. apply IH.
Qed.

(** The stop event is honoured at the first turn that finds it set: the
    state is the one the earlier turns produced, and later turns do not
    run. *)
Theorem watch_loop_stops (before after : list Tick) (t : Tick) (st : WatchState) :
  Forall (fun t' => stop_set t' = false) before ->
  stop_set t = true ->
  watch_loop callback (before ++ t :: after) st
  = ((watch_loop callback before st).1, true).
Proof.
  intros Hbefore Hstop. revert st.
  induction Hbefore as [|t' before Ht' _ IH]; intros st; cbn [app watch_loop].
  - rewrite Hstop. reflexivity.
  - rewrite Ht'. apply IH.
Qed.

Lemma new_files_all_known (current : list DriveFile) (known : gset string) :
  (forall f, f ∈ current -> id f ∈ known) -> new_files known current = [].
Proof.
  unfold new_files. induction current as [|f fs IH]; intros Hall; [reflexivity|].
  rewrite filter_cons_False.
  - apply IH. intros g Hg. apply Hall. set_solver.
  - intros Hf. apply Hf. apply Hall. set_solver.
Qed.

(** After a poll whose callback returned normally, polling the same
    listing again reports nothing. *)
Theorem poll_once_twice (st : WatchState) (current : list DriveFile) :
  is_ret (callback (length (calls st)) (new_files (known_files st) current)) = true ->
  poll_once callback (poll_once callback st (Ret current)) (Ret current)
  = poll_once callback st (Ret current).
Proof.
  intros Hok.
  destruct (new_files (known_files st) current) as [|f nf] eqn:E.
  - assert (H1 : poll_once callback st (Ret current) = st)
      by (unfold poll_once; rewrite E; reflexivity).
    rewrite H1. exact H1.
  - assert (H1 : poll_once callback st (Ret current)
                 = mkWatchState (add_ids (f :: nf) (known_files st))
                     (calls st ++ [f :: nf])).
    { unfold poll_once. rewrite E.
      destruct (callback _ _) as [[]|e]; [reflexivity | discriminate]. }
    rewrite H1. unfold poll_once at 1. cbn [known_files calls].
    rewrite new_files_all_known; [reflexivity|].
    intros g Hg. rewrite add_ids_union.
    destruct (decide (id g ∈ known_files st)) as [Hin|Hout]; [set_solver|].
    assert (Hnew : g ∈ f :: nf) by (rewrite <- E; apply elem_of_new_files; auto).
    apply elem_of_union_r, elem_of_list_to_set, list_elem_of_fmap.
    exists g. auto.
Qed.

End WatcherInvariants.

Section WatcherRuns.
Import Drive DriveRuns.

Lemma watch_loop_stops_witness :
  watch_loop quiet_callback
    ([mkTick false (Ret existing)] ++ mkTick true (Ret arrived)
       :: [mkTick false (Ret (existing ++ arrived)%list)])
    (initial_scan existing)
  = ((watch_loop quiet_callback [mkTick false (Ret existing)]
        (initial_scan existing)).1, true).
Proof.
  apply (watch_loop_stops quiet_callback [mkTick false (Ret existing)]
           [mkTick false (Ret (existing ++ arrived)%list)]
           (mkTick true (Ret arrived)) (initial_scan existing)).
  - repeat constructor.
  - reflexivity.
Defined.

Lemma poll_once_twice_witness :
  let st := initial_scan existing in
  let listing := (existing ++ arrived)%list in
  poll_once quiet_callback (poll_once quiet_callback st (Ret listing)) (Ret listing)
  = poll_once quiet_callback st (Ret listing).
Proof.
  cbv zeta.
  apply (poll_once_twice quiet_callback (initial_scan existing)
           (existing ++ arrived)%list).
  reflexivity.
Defined.

End WatcherRuns.

Section ReportedOnce.
Import Drive DriveRuns.

Variable callback : nat -> list DriveFile -> Outcome unit.
Hypothesis callback_returns : forall n fs, is_ret (callback n fs) = true.

Lemma poll_once_reported_once (st : WatchState) (o : Outcome (list DriveFile)) :
  reported_once st -> reported_once (poll_once callback st o).
Proof.
  intros [Hknown Hdisj]. unfold poll_once.
  destruct o as [current|e]; [|split; assumption].
  destruct (new_files (known_files st) current) as [|f0 nf] eqn:E; [split; assumption|].
  pose proof (callback_returns (length (calls st)) (f0 :: nf)) as Hok.
  destruct (callback _ _) as [[]|e]; [|discriminate].
  assert (Hfresh : forall g, g ∈ f0 :: nf -> id g ∉ known_files st).
  { intros g Hg. rewrite <- E in Hg. apply elem_of_new_files in Hg. tauto. }
  split; cbn [known_files calls].
  - intros fs f Hfs Hf. rewrite add_ids_union.
    apply elem_of_app in Hfs as [Hfs|Hfs].
    + apply elem_of_union_l. eauto.
    + apply list_elem_of_singleton in Hfs. subst fs.
      apply elem_of_union_r, elem_of_list_to_set, list_elem_of_fmap. eauto.
  - intros i j fs_i fs_j f g Hij Hi Hj Hf Hg.
    apply lookup_app_Some in Hj as [Hj | [Hlen Hj]].
    + apply lookup_app_Some in Hi as [Hi | [Hlen' _]].
      * eapply Hdisj; eassumption.
      * apply lookup_lt_Some in Hj. lia.
    + apply list_lookup_singleton_Some in Hj as [Hj0 <-].
      apply lookup_app_Some in Hi as [Hi | [Hlen' _]]; [|lia].
      intros Heq. apply (Hfresh g Hg). rewrite <- Heq.
      apply (Hknown fs_i f); [|exact Hf].
      apply list_elem_of_lookup. eauto.
Qed.

Lemma watch_loop_reported_once (ticks : list Tick) : forall st,
  reported_once st -> reported_once (watch_loop callback ticks st).1.
Proof.
  induction ticks as [|t ticks IH]; intros st Hst; cbn [watch_loop]; [exact Hst|].
  destruct (stop_set t); [exact Hst|].
  apply IH, poll_once_reported_once, Hst.
Qed.

End ReportedOnce.

Section ReportedOnceClaims.
Import Drive DriveRuns DriveMoreRuns.

(** With a callback that never raises, a watch session hands every file
    identifier to the callback at most once: no identifier occurs in two
    different calls, and none of the initial listing occurs in any. *)
Theorem watch_folder_reports_each_file_once
    (callback : nat -> list DriveFile -> Outcome unit)
    (initial_files : list DriveFile) (ticks : list Tick) :
  (forall n fs, is_ret (callback n fs) = true) ->
  let st' := (watch_loop callback ticks (initial_scan initial_files)).1 in
  (forall i j fs_i fs_j f g,
     (i < j)%nat -> calls st' !! i = Some fs_i -> calls st' !! j = Some fs_j ->
     f ∈ fs_i -> g ∈ fs_j -> id f <> id g) /\
  (forall fs f g, fs ∈ calls st' -> f ∈ fs -> g ∈ initial_files -> id f <> id g).
Proof.
  intros Hok st'. split.
  - apply (watch_loop_reported_once callback Hok ticks (initial_scan initial_files)).
    split.
    + intros fs f Hfs. inversion Hfs.
    + intros i j fs_i fs_j f g _ Hi. cbn in Hi. rewrite lookup_nil in Hi. discriminate.
  - intros fs f g Hfs Hf Hg Heq.
    destruct (watch_loop_state_grows callback ticks (initial_scan initial_files))
      as (_ & new & Hcalls & Hnew).
    fold st' in Hcalls. cbn [calls initial_scan app] in Hcalls.
    rewrite Hcalls in Hfs.
    rewrite Forall_forall in Hnew. destruct (Hnew fs Hfs) as [_ Hfresh].
    apply (Hfresh f Hf). rewrite Heq. unfold initial_scan. cbn [known_files].
    rewrite add_ids_union.
    apply elem_of_union_r, elem_of_list_to_set, list_elem_of_fmap. eauto.
Qed.

Lemma watch_folder_reports_each_file_once_witness :
  let st' := (watch_loop quiet_callback
                [mkTick false (Ret (existing ++ arrived)%list);
                 mkTick false (Ret (existing ++ arrived)%list)]
                (initial_scan existing)).1 in
  (forall i j fs_i fs_j f g,
     (i < j)%nat -> calls st' !! i = Some fs_i -> calls st' !! j = Some fs_j ->
     f ∈ fs_i -> g ∈ fs_j -> id f <> id g) /\
  (forall fs f g, fs ∈ calls st' -> f ∈ fs -> g ∈ existing -> id f <> id g).
Proof.
  apply (watch_folder_reports_each_file_once quiet_callback existing).
  intros n fs. reflexivity.
Defined.

(** [download_batch] has no per-item isolation.  A batch is the batch of
    its first files followed by the batch of the rest; when a download
    raises, the batch raises with it and no later file is requested.  A
    batch that returns gives one path per file, in order, each the
    destination directory joined with the file's name. *)
Theorem download_batch_aborts {World : Type}
    (download_file : string -> string -> World -> Outcome string * World)
    (first rest : list DriveFile) (destination_dir : string) (w : World) :
  download_batch download_file (first ++ rest) destination_dir w
  = match download_batch download_file first destination_dir w with
    | (Raise e, w1) => (Raise e, w1)
    | (Ret paths1, w1) =>
      match download_batch download_file rest destination_dir w1 with
      | (Raise e, w2) => (Raise e, w2)
      | (Ret paths2, w2) => (Ret (paths1 ++ paths2)%list, w2)
      end
    end /\
  (forall paths w',
     download_batch download_file first destination_dir w = (Ret paths, w') ->
     paths = map (fun f => destination_dir +:+ "/" +:+ name f) first).
Proof.
  split.
  - revert w. induction first as [|f first IH]; intros w; cbn [app download_batch].
    + destruct (download_batch download_file rest destination_dir w) as [[ps|e] w2];
        reflexivity.
    + destruct (download_file (id f) _ w) as [[d|e] w1]; [|reflexivity].
      rewrite IH.
      destruct (download_batch download_file first destination_dir w1)
        as [[ps1|e] w2]; [|reflexivity].
      destruct (download_batch download_file rest destination_dir w2)
        as [[ps2|e] w3]; reflexivity.
  - revert w. induction first as [|f first IH]; intros w paths w' H;
      cbn [download_batch] in H.
    + injection H as <- _. reflexivity.
    + destruct (download_file (id f) _ w) as [[d|e] w1]; [|discriminate].
      destruct (download_batch download_file first destination_dir w1)
        as [[ps1|e] w2] eqn:E; [|discriminate].
      injection H as <- _. cbn [map]. f_equal. eapply IH. exact E.
Qed.

Lemma download_batch_aborts_witness :
  download_batch flaky_download ([png "a"] ++ [png "b"; png "c"]) "/tmp/downloads" []
  = (Raise (Exn "HttpError" "download failed"), ["/tmp/downloads/a.png"]) /\
  ["/tmp/downloads/a.png"] = map (fun f => "/tmp/downloads" +:+ "/" +:+ name f) [png "a"].
Proof.
  destruct (download_batch_aborts flaky_download [png "a"] [png "b"; png "c"]
              "/tmp/downloads" []) as [Happ Hpaths].
  split.
  - rewrite Happ. vm_compute. reflexivity.
  - apply (Hpaths ["/tmp/downloads/a.png"] ["/tmp/downloads/a.png"]).
    vm_compute. reflexivity.
Defined.

(** Of five files the second fails to download: the batch raises after the
    first file, and the three files after it are never requested. *)
Lemma download_batch_stops_at_failure :
  download_batch flaky_download (existing ++ arrived) "/tmp/downloads" []
  = (Raise (Exn "HttpError" "download failed"), ["/tmp/downloads/a.png"]).
Proof. vm_compute. reflexivity. Qed.

End ReportedOnceClaims.

(** * Further properties of the image utilities *)

Section PrepareMore.
Import ImageUtil ImageRuns.

(** A thumbnail that changes the size fills the box in one dimension. *)
Lemma thumbnail_size_some (w h x y w' h' : Z) :
  thumbnail_size w h x y = Some (w', h') -> w' = x \/ h' = y.
Proof.
  unfold thumbnail_size. destruct (_ && _); [discriminate|].
  destruct (Qle_bool _ _); intros H; injection H as <- <-; auto.
Qed.

Lemma thumbnail_size_none (w h x y : Z) :
  thumbnail_size w h x y = None <-> w <= x /\ h <= y.
Proof.
  unfold thumbnail_size.
  destruct ((w <=? x) && (h <=? y)) eqn:E.
  - apply andb_true_iff in E as [E1 E2].
    apply Z.leb_le in E1. apply Z.leb_le in E2. tauto.
  - split.
    + destruct (Qle_bool _ _); discriminate.
    + intros [H1 H2]. apply Z.leb_le in H1. apply Z.leb_le in H2.
      rewrite H1, H2 in E. discriminate.
Qed.

Lemma thumbnail_dims (img : Image) (x y : Z) :
  (width img <= x /\ height img <= y /\ thumbnail img x y = img) \/
  (~ (width img <= x /\ height img <= y) /\
   (width (thumbnail img x y) = x \/ height (thumbnail img x y) = y)).
Proof.
  unfold thumbnail.
  destruct (thumbnail_size (width img) (height img) x y) as [[w' h']|] eqn:E.
  - right. split.
    + intros H. apply thumbnail_size_none in H. congruence.
    + apply thumbnail_size_some in E.
      destruct ((w' =? width img) && (h' =? height img)) eqn:Eq.
      * apply andb_true_iff in Eq as [E1 E2].
        apply Z.eqb_eq in E1. apply Z.eqb_eq in E2. lia.
      * exact E.
  - left. apply thumbnail_size_none in E. tauto.
Qed.

(** For an image and a target of positive size, the prepared garment
    image is always square and in RGB mode, and it has the target size
    whenever the input is larger than the target in width or height, or
    is not square. *)
Theorem prepare_garment_image_square (img : Image) (target_size : Z) :
  0 < width img -> 0 < height img -> 0 < target_size ->
  let out := prepare_garment_image img target_size in
  mode out = "RGB" /\
  width out = height out /\
  (target_size < width img \/ target_size < height img \/
   width img <> height img ->
   out = mkImage "RGB" target_size target_size).
Proof.
  intros _ _ _. cbv zeta. split; [apply prepare_garment_image_mode|].
  unfold prepare_garment_image. rewrite convert_to_rgb.
  set (rgb := mkImage "RGB" (width img) (height img)).
  pose proof (thumbnail_mode rgb target_size target_size) as Hmode.
  destruct (thumbnail_dims rgb target_size target_size) as [(Hw & Hh & ->) | (Hbig & Hfill)].
  - subst rgb. cbn [width height] in *.
    destruct (width img =? height img) eqn:E; cbn [negb].
    + apply Z.eqb_eq in E. split; [exact E|]. lia.
    + split; reflexivity.
  - destruct (width (thumbnail rgb target_size target_size)
              =? height (thumbnail rgb target_size target_size)) eqn:E; cbn [negb].
    + apply Z.eqb_eq in E. split; [exact E|]. intros _.
      destruct (thumbnail rgb target_size target_size) as [m w' h'].
      cbn in *. f_equal; [exact Hmode | lia | lia].
    + split; reflexivity.
Qed.

(** A landscape photo of 2000 x 1000 pixels with an alpha channel. *)
Lemma prepare_garment_image_square_witness :
  prepare_garment_image (mkImage "RGBA" 2000 1000) 1024 = mkImage "RGB" 1024 1024.
Proof.
  apply (prepare_garment_image_square (mkImage "RGBA" 2000 1000) 1024);
    [reflexivity | reflexivity | reflexivity |].
  left. vm_compute. reflexivity.
Defined.

End PrepareMore.

Section Closeup.
Import ImageUtil ImageRuns.

Lemma py_int_scaled (n : Z) (a : Z) (b : positive) :
  py_int (inject_Z n * (a # b)) = Z.quot (n * a) (Zpos b).
Proof. reflexivity. Qed.

(** For every image of at least 2 x 2 pixels and every [focus_region],
    the crop box of [create_closeup] lies inside the image and is not
    empty, so the close-up has a positive size no larger than the image;
    for [upper] the box spans about 70% of the width and 40% of the
    height. *)
Theorem create_closeup_box (focus_region : string) (img : Image) :
  2 <= width img -> 2 <= height img ->
  let '(x0, y0, x1, y1) := crop_box focus_region (width img) (height img) in
  (0 <= x0 < x1 /\ x1 <= width img) /\
  (0 <= y0 < y1 /\ y1 <= height img) /\
  create_closeup img focus_region = mkImage (mode img) (x1 - x0) (y1 - y0) /\
  (focus_region = "upper" ->
   7 * width img - 10 < 10 * (x1 - x0) < 7 * width img + 10 /\
   4 * height img - 10 < 10 * (y1 - y0) < 4 * height img + 10).
Proof.
  intros Hw Hh. unfold create_closeup.
  destruct (crop_box focus_region (width img) (height img)) as [[[x0 y0] x1] y1] eqn:E.
  unfold crop_box in E.
  destruct (String.eqb focus_region "upper") eqn:Eu;
    [|destruct (String.eqb focus_region "center") eqn:Ec];
    rewrite ?py_int_scaled in E; rewrite ?Z.quot_div_nonneg in E by lia;
    injection E as <- <- <- <-;
    try apply String.eqb_neq in Eu;
    (split; [|split; [|split; [reflexivity|]]]); try (intros ?; try congruence);
    Z.div_mod_to_equations; lia.
Qed.

Lemma create_closeup_box_witness :
  let img := mkImage "RGB" 1024 1536 in
  let '(x0, y0, x1, y1) := crop_box "upper" (width img) (height img) in
  (0 <= x0 < x1 /\ x1 <= width img) /\
  (0 <= y0 < y1 /\ y1 <= height img) /\
  create_closeup img "upper" = mkImage (mode img) (x1 - x0) (y1 - y0) /\
  ("upper" = "upper" ->
   7 * width img - 10 < 10 * (x1 - x0) < 7 * width img + 10 /\
   4 * height img - 10 < 10 * (y1 - y0) < 4 * height img + 10).
Proof.
  cbv zeta.
  apply (create_closeup_box "upper" (mkImage "RGB" 1024 1536)); vm_compute; discriminate.
Defined.

End Closeup.

(** * Further properties of the page layout *)

Section SplitLayout.
Import Assembler AssemblerMoreRuns.
Local Open Scope Q_scope.

(** The rectangle of an image of positive size in a region of positive
    size lies inside the region. *)
Lemma layout_single_within (iw ih : Z) (x y W H : Q) :
  (0 < iw)%Z -> (0 < ih)%Z -> 0 < W -> 0 < H ->
  exists r, layout_single iw ih x y W H = Some r /\
    x <= rx r /\ rx r + rw r <= x + W /\ y <= ry r /\ ry r + rh r <= y + H.
Proof.
  intros Hiw Hih HW HH.
  pose proof (aspect_pos iw ih Hiw Hih) as HA.
  destruct (layout_single_cases iw ih x y W H Hiw Hih HW HH)
    as (r & Hr & Hx & Hy & Hwide & Hnarrow).
  set (A := inject_Z iw / inject_Z ih) in *.
  exists r. split; [exact Hr|].
  assert (Hx' : rx r == x + (W - rw r) * (1 # 2)) by (rewrite Hx; field).
  assert (Hy' : ry r == y + (H - rh r) * (1 # 2)) by (rewrite Hy; field).
  destruct (Qlt_le_dec A (W / H)) as [Hlt|Hle].
  - destruct (Hwide Hlt) as [Hh Hw].
    apply (proj1 (wider_iff W H A HH)) in Hlt.
    assert (Hrw' : rw r == (9 # 10) * (A * H)) by (rewrite Hw; ring).
    repeat split; lra.
  - destruct (Hnarrow Hle) as [Hw Hh].
    assert (HWA : W / A <= H).
    { apply Qle_shift_div_r; [exact HA|].
      apply (Qmult_le_r _ _ H HH) in Hle.
      assert (E : W / H * H == W) by (field; lra). rewrite E in Hle. lra. }
    assert (Hrh : rh r == (8 # 10) * (W / A)) by (rewrite Hh; field; lra).
    repeat split; lra.
Qed.

Lemma draw_single_image_within (env : Env) (p : string) (iw ih : Z)
    (x y W H : Q) (c : Canvas) :
  path_exists env p = true -> image_size env p = Ret (iw, ih) ->
  (0 < iw)%Z -> (0 < ih)%Z -> 0 < W -> 0 < H ->
  exists r, _draw_single_image env (Some p) x y W H c = Ret (draw (DrawImage p r) c) /\
    x <= rx r /\ rx r + rw r <= x + W /\ y <= ry r /\ ry r + rh r <= y + H.
Proof.
  intros Hex Hsz Hiw Hih HW HH.
  destruct (layout_single_within iw ih x y W H Hiw Hih HW HH) as (r & Hr & Hin).
  exists r. split; [|exact Hin].
  unfold _draw_single_image, os_path_exists. rewrite Hex, Hsz, Hr. reflexivity.
Qed.

(** The split layout draws the full-body image in the left 58% of the
    region and the close-up in a box of 38% of the width and the middle
    60% of the height, to the right of it: the two images never overlap,
    at least [image_gap] lies between them, and when [image_gap] is at
    most 4% of the region's width both stay inside the region. *)
Theorem split_layout_keeps_apart (env : Env) (p q : string)
    (pw ph qw qh : Z) (x y W H : Q) (c : Canvas) :
  path_exists env p = true -> image_size env p = Ret (pw, ph) ->
  path_exists env q = true -> image_size env q = Ret (qw, qh) ->
  (0 < pw)%Z -> (0 < ph)%Z -> (0 < qw)%Z -> (0 < qh)%Z -> 0 < W -> 0 < H ->
  exists r1 r2,
    _draw_split_layout env (Some p) (Some q) x y W H c
    = Ret (draw (DrawImage q r2) (draw (DrawImage p r1) c)) /\
    (x <= rx r1 /\ rx r1 + rw r1 <= x + (58 # 100) * W) /\
    (y <= ry r1 /\ ry r1 + rh r1 <= y + H) /\
    rx r1 + rw r1 + image_gap <= rx r2 /\
    (y + (2 # 10) * H <= ry r2 /\ ry r2 + rh r2 <= y + (8 # 10) * H) /\
    (image_gap <= (4 # 100) * W -> rx r2 + rw r2 <= x + W).
Proof.
  intros Hp Hps Hq Hqs Hpw Hph Hqw Hqh HW HH.
  unfold _draw_split_layout.
  destruct (draw_single_image_within env p pw ph x y (W * (58 # 100)) H c
              Hp Hps Hpw Hph ltac:(lra) HH) as (r1 & -> & H1).
  destruct (draw_single_image_within env q qw qh
              (x + W * (58 # 100) + image_gap) (y + H * (2 # 10))
              (W * (38 # 100)) (H * (6 # 10)) (draw (DrawImage p r1) c)
              Hq Hqs Hqw Hqh ltac:(lra) ltac:(lra)) as (r2 & -> & H2).
  destruct H1 as (? & ? & ? & ?). destruct H2 as (? & ? & ? & ?).
  exists r1, r2. split; [reflexivity|].
  split; [split; lra|]. split; [split; lra|]. split; [lra|].
  split; [split; lra|]. intros Hgap. lra.
Qed.

(** On a product page: a portrait render beside a landscape close-up. *)
Lemma split_layout_keeps_apart_witness :
  let W := page_width - 2 * page_margin in
  let H := page_height - page_margin - header_height - (page_margin + footer_height) in
  exists r1 r2,
    _draw_split_layout two_images_env (Some "/img/full.png") (Some "/img/closeup.png")
      page_margin (page_margin + footer_height) W H (new_canvas "out.pdf")
    = Ret (draw (DrawImage "/img/closeup.png" r2)
             (draw (DrawImage "/img/full.png" r1) (new_canvas "out.pdf"))) /\
    rx r1 + rw r1 + image_gap <= rx r2 /\
    rx r2 + rw r2 <= page_margin + W.
Proof.
  cbv zeta.
  destruct (split_layout_keeps_apart two_images_env "/img/full.png" "/img/closeup.png"
              1024 1536 700 400 page_margin (page_margin + footer_height)
              (page_width - 2 * page_margin)
              (page_height - page_margin - header_height - (page_margin + footer_height))
              (new_canvas "out.pdf"))
    as (r1 & r2 & Hdraw & _ & _ & Hgap & _ & Hin);
    try reflexivity.
  exists r1, r2. split; [exact Hdraw|]. split; [exact Hgap|].
  apply Hin. vm_compute. discriminate.
Defined.

End SplitLayout.

(** * Further properties of the page composition *)

Section ComposeMore.
Import Assembler.

Variable env : Env.
Variable cfg : Config.

(** The marks every product page carries: the brand in the header, the
    title, and the page number when page numbers are on. *)
Lemma create_product_page_marks (p : string) (closeup : option string)
    (product_name : string) (product_code : option string) (page_number : nat)
    (c : Canvas) :
  exists ops,
    _create_product_page env cfg (Some p) closeup product_name product_code
      page_number c
    = Ret (mkCanvas (filename c) [] (pages c ++ [mkPage Product ops]) (saved c)) /\
    DrawString page_margin (page_margin + 30)%Q product_name ∈ ops /\
    DrawString page_margin (page_height - page_margin + 5)%Q (brand cfg) ∈ ops /\
    (include_page_numbers cfg = true ->
     DrawString ((page_width - string_width env (pretty page_number) body_font 10) / 2)%Q
       (page_margin - 10)%Q (pretty page_number) ∈ ops).
Proof.
  unfold _create_product_page.
  set (c1 := _draw_page_header cfg _).
  set (region := if and_exists env closeup then _ else _).
  assert (Hdrawn : exists c2, region = Ret c2 /\ only_adds_images env c1 c2).
  { subst region. destruct (and_exists env closeup) eqn:Hc.
    - destruct closeup as [q|]; [|discriminate].
      unfold _draw_split_layout.
      match goal with
      | |- context [_draw_single_image env (Some p) ?x ?y ?w ?h c1] =>
        destruct (draw_single_image_adds env p x y w h c1) as (c2 & -> & H12)
      end.
      match goal with
      | |- context [_draw_single_image env (Some q) ?x ?y ?w ?h c2] =>
        destruct (draw_single_image_adds env q x y w h c2) as (c3 & -> & H23)
      end.
      exists c3. split; [reflexivity|].
      eapply only_adds_images_trans; eauto.
    - apply draw_single_image_adds. }
  destruct Hdrawn as (c2 & -> & Hf & Hp & Hs & imgs & Hcur & Himgs).
  unfold showPage, _draw_page_footer, _draw_product_info.
  destruct (include_page_numbers cfg), (truthy_str product_code);
    cbn [filename pages saved cur draw]; rewrite Hf, Hp, Hs, Hcur;
    subst c1; cbn [_draw_page_header filename pages saved cur draw];
    (eexists; split; [reflexivity|]; split; [set_solver|]; split; [set_solver|]);
    first [ intros _; set_solver | intros H; discriminate H ].
Qed.

(** A product page without an image path is not composed: the existence
    test raises before the page is closed, with or without a close-up. *)
Lemma create_product_page_none (closeup : option string) (product_name : string)
    (product_code : option string) (page_number : nat) (c : Canvas) :
  exists e,
    _create_product_page env cfg None closeup product_name product_code
      page_number c = Raise e /\
    exn_class e = "TypeError".
Proof.
  unfold _create_product_page, _draw_split_layout.
  destruct (and_exists env closeup); eexists; split; reflexivity.
Qed.

(** The loop over the entries, page by page: entry [k] gives page [k],
    with its own title (or [Style #n]) and its number [n], where [n]
    counts the entries from 1. *)
Lemma product_pages_in_order (images : list ImageSet) : forall (i : nat) (c : Canvas),
  (forall im, im ∈ images -> is_Some (primary_image im)) ->
  exists ps,
    product_pages env cfg images i c
    = Ret (mkCanvas (filename c) (match images with [] => cur c | _ => [] end)
             (pages c ++ ps) (saved c)) /\
    length ps = length images /\
    forall k im, images !! k = Some im ->
      exists ops,
        ps !! k = Some (mkPage Product ops) /\
        DrawString page_margin (page_margin + 30)%Q
          (default ("Style #" +:+ pretty (i + k + 1)%nat) (d_product_name im)) ∈ ops /\
        (include_page_numbers cfg = true ->
         DrawString
           ((page_width - string_width env (pretty (i + k + 1)%nat) body_font 10) / 2)%Q
           (page_margin - 10)%Q (pretty (i + k + 1)%nat) ∈ ops).
Proof.
  induction images as [|im0 images IH]; intros i c Hall.
  - exists []. cbn. rewrite app_nil_r. destruct c. split; [reflexivity|].
    split; [reflexivity|]. intros k im Hk. discriminate.
  - destruct (Hall im0) as [p Hp]; [set_solver|].
    cbn [product_pages]. rewrite Hp.
    destruct (create_product_page_marks p (d_closeup im0)
                (default ("Style #" +:+ pretty (i + 1)%nat) (d_product_name im0))
                (d_product_code im0) (i + 1)%nat c)
      as (ops & -> & Htitle & _ & Hnum).
    destruct (IH (S i) (mkCanvas (filename c) []
                          (pages c ++ [mkPage Product ops]) (saved c)))
      as (ps & -> & Hlen & Hps); [set_solver|].
    exists (mkPage Product ops :: ps). cbn [filename cur pages saved].
    split; [|split].
    + rewrite <- app_assoc. destruct images; reflexivity.
    + cbn. congruence.
    + intros [|k] im Hk.
      * injection Hk as <-. exists ops. split; [reflexivity|].
        replace (i + 0 + 1)%nat with (i + 1)%nat by lia. auto.
      * destruct (Hps k im Hk) as (ops' & Hlk & Ht & Hn).
        exists ops'. split; [exact Hlk|].
        replace (i + S k + 1)%nat with (S i + k + 1)%nat by lia. auto.
Qed.

Lemma product_pages_raises (images : list ImageSet) : forall (i : nat) (c : Canvas),
  (exists im, im ∈ images /\ primary_image im = None) ->
  exists e, product_pages env cfg images i c = Raise e /\ exn_class e = "TypeError".
Proof.
  induction images as [|im0 images IH]; intros i c (im & Hin & Hnone).
  - inversion Hin.
  - cbn [product_pages].
    destruct (primary_image im0) as [p|] eqn:Hp.
    + destruct (create_product_page_marks p (d_closeup im0)
                  (default ("Style #" +:+ pretty (i + 1)%nat) (d_product_name im0))
                  (d_product_code im0) (i + 1)%nat c) as (ops & -> & _).
      apply IH. exists im. split; [|exact Hnone].
      apply elem_of_cons in Hin as [->|Hin]; [congruence | exact Hin].
    + destruct (create_product_page_none (d_closeup im0)
                  (default ("Style #" +:+ pretty (i + 1)%nat) (d_product_name im0))
                  (d_product_code im0) (i + 1)%nat c) as (e & -> & He).
      exists e. auto.
Qed.

End ComposeMore.

Section ComposeMoreClaims.
Import Assembler ImageRuns AssemblerMoreRuns.

(** [create_catalog] lays the document out in input order: the cover
    first and the back cover last when they are asked for, and between
    them one product page per entry; the page of entry [k] (counted from
    0) carries that entry's [product_name], or [Style #k+1] when it has
    none, and the page number [k + 1], whether or not there is a cover. *)
Theorem create_catalog_pages_in_order (env : Env) (cfg : Config)
    (images : list ImageSet) (output_path : string) (include_cover : bool) :
  (forall im, im ∈ images -> is_Some (primary_image im)) ->
  exists c front ps back,
    create_catalog env cfg images output_path include_cover = Ret c /\
    saved c = true /\
    pages c = (front ++ ps ++ back)%list /\
    map kind front = (if include_cover then [Cover] else []) /\
    map kind back = (if include_cover then [BackCover] else []) /\
    length ps = length images /\
    forall k im, images !! k = Some im ->
      exists ops,
        ps !! k = Some (mkPage Product ops) /\
        DrawString page_margin (page_margin + 30)%Q
          (default ("Style #" +:+ pretty (k + 1)%nat) (d_product_name im)) ∈ ops /\
        (include_page_numbers cfg = true ->
         DrawString
           ((page_width - string_width env (pretty (k + 1)%nat) body_font 10) / 2)%Q
           (page_margin - 10)%Q (pretty (k + 1)%nat) ∈ ops).
Proof.
  intros Hall. unfold create_catalog.
  destruct include_cover.
  - destruct (create_cover_page_shape env cfg (new_canvas output_path)) as (cover & ->).
    match goal with
    | |- context [product_pages env cfg images 0%nat ?c1] =>
      destruct (product_pages_in_order env cfg images 0%nat c1 Hall)
        as (ps & -> & Hlen & Hps)
    end.
    match goal with
    | |- context [_create_back_cover env cfg ?c2] =>
      destruct (create_back_cover_shape env cfg c2) as (back & ->)
    end.
    cbn [filename cur pages saved new_canvas].
    eexists _, [mkPage Cover cover], ps, [mkPage BackCover back].
    split; [reflexivity|]. cbn [save saved pages].
    split; [reflexivity|]. split; [rewrite <- app_assoc; reflexivity|].
    split; [reflexivity|]. split; [reflexivity|]. split; [exact Hlen|].
    exact Hps.
  - destruct (product_pages_in_order env cfg images 0%nat (new_canvas output_path) Hall)
      as (ps & -> & Hlen & Hps).
    eexists _, [], ps, []. split; [reflexivity|]. cbn [save saved pages new_canvas].
    split; [reflexivity|]. split; [rewrite app_nil_r; reflexivity|].
    split; [reflexivity|]. split; [reflexivity|]. split; [exact Hlen|].
    exact Hps.
Qed.

Lemma create_catalog_pages_in_order_witness :
  exists c front ps back,
    create_catalog wide_env bono_config
      [mkImageSet None None None None None None None (Some "/img/wide.png") None
         (Some "Blue Shirt") None;
       mkImageSet None None None None None None None (Some "/img/missing.png") None
         None None]
      "out.pdf" true = Ret c /\
    pages c = (front ++ ps ++ back)%list /\
    map kind front = [Cover] /\ map kind back = [BackCover] /\
    length ps = 2%nat.
Proof.
  destruct (create_catalog_pages_in_order wide_env bono_config
              [mkImageSet None None None None None None None (Some "/img/wide.png") None
                 (Some "Blue Shirt") None;
               mkImageSet None None None None None None None (Some "/img/missing.png")
                 None None None]
              "out.pdf" true)
    as (c & front & ps & back & Hc & _ & Hp & Hf & Hb & Hl & _).
  - intros im Him. apply list_elem_of_In in Him.
    destruct Him as [<-|[<-|[]]]; eexists; reflexivity.
  - exists c, front, ps, back. auto.
Defined.

(** [create_catalog] writes a document exactly when every entry has a
    primary image path ([full_body] or, failing that, [output_path]); one
    entry without it makes the call raise [TypeError] before [save()],
    wherever the entry stands and whatever the other entries are. *)
Theorem create_catalog_saves_iff (env : Env) (cfg : Config)
    (images : list ImageSet) (output_path : string) (include_cover : bool) :
  ((forall im, im ∈ images -> is_Some (primary_image im)) ->
   exists c, create_catalog env cfg images output_path include_cover = Ret c /\
             saved c = true) /\
  ((exists im, im ∈ images /\ primary_image im = None) ->
   exists e, create_catalog env cfg images output_path include_cover = Raise e /\
             exn_class e = "TypeError").
Proof.
  split.
  - intros Hall.
    destruct (create_catalog_page_count env cfg images output_path include_cover Hall)
      as (c & Hc & Hs & _).
    exists c. auto.
  - intros Hex. unfold create_catalog.
    match goal with
    | |- context [product_pages env cfg images 0%nat ?c1] =>
      destruct (product_pages_raises env cfg images 0%nat c1 Hex) as (e & -> & He)
    end.
    exists e. auto.
Qed.

Lemma create_catalog_saves_iff_witness :
  exists e,
    create_catalog wide_env bono_config
      [mkImageSet None None None None None None None (Some "/img/wide.png") None
         None None;
       mkImageSet (Some true) None (Some "job-1")
         (Some "/out/full_body_job-1.png") (Some "/out/closeup_b.png") None
         (Some "b") None None None None]
      "out.pdf" true = Raise e /\
    exn_class e = "TypeError".
Proof.
  apply (proj2 (create_catalog_saves_iff wide_env bono_config _ "out.pdf" true)).
  eexists. split; [apply list_elem_of_In; right; left; reflexivity | reflexivity].
Defined.

End ComposeMoreClaims.

Section CoverMarks.
Import Assembler AssemblerMoreRuns.

Lemma cover_heights_differ :
  (page_height - 240 <> page_height - 180)%Q /\
  (page_height / 2 + 50 <> page_height - 180)%Q /\
  (100 <> page_height - 180)%Q.
Proof.
  repeat split; intros H; apply (f_equal Qnum) in H; vm_compute in H; discriminate.
Qed.

(** The brand mark of the cover.  The brand name is written on the cover
    exactly when the logo path is unset, empty or names no file; the logo
    is drawn exactly when the file exists and can be read.  So a logo file
    that exists but cannot be read leaves the cover without any brand
    mark.  The back cover carries the brand name in every case. *)
Theorem cover_brand_mark (env : Env) (cfg : Config) (output_path : string) :
  let brand_text :=
    DrawString ((page_width - string_width env (brand cfg) heading_font 72) / 2)%Q
      (page_height - 180)%Q (brand cfg) in
  exists cover back,
    _create_cover_page env cfg (new_canvas output_path)
    = mkCanvas output_path [] [mkPage Cover cover] false /\
    _create_back_cover env cfg (new_canvas output_path)
    = mkCanvas output_path [] [mkPage BackCover back] false /\
    (brand_text ∈ cover <-> and_exists env (logo_path cfg) = false) /\
    ((exists p r, DrawImage p r ∈ cover) <->
     and_exists env (logo_path cfg) = true /\
     is_ret (image_size env (fmt_opt (logo_path cfg))) = true) /\
    DrawString ((page_width - string_width env (brand cfg) heading_font 36) / 2)%Q
      (page_height / 2 - 30)%Q (brand cfg) ∈ back.
Proof.
  cbv zeta. destruct cover_heights_differ as (H1 & H2 & H3).
  unfold _create_cover_page, _create_back_cover, draw_logo, centered_text, showPage.
  destruct (and_exists env (logo_path cfg)) eqn:Hlogo; cbn [negb];
    [destruct (image_size env (fmt_opt (logo_path cfg))) as [sz|e] eqn:Hsz|];
    cbn [new_canvas draw filename cur pages saved app];
    (eexists _, _; split; [reflexivity|]; split; [reflexivity|]);
    (split; [|split; [|set_solver]]).
  - split; [|discriminate]. intros Hin.
    repeat (apply elem_of_cons in Hin as [Hin|Hin];
            [try discriminate Hin; injection Hin as _ Hy _; congruence|]).
    inversion Hin.
  - split; [intros _; auto|]. intros _. eexists _, _.
    apply list_elem_of_In. right. right. left. reflexivity.
  - split; [|discriminate]. intros Hin.
    repeat (apply elem_of_cons in Hin as [Hin|Hin];
            [try discriminate Hin; injection Hin as _ Hy _; congruence|]).
    inversion Hin.
  - split; [|intros [_ H]; discriminate H]. intros (p & r & Hin).
    repeat (apply elem_of_cons in Hin as [Hin|Hin]; [discriminate Hin|]).
    inversion Hin.
  - split; [reflexivity|]. intros _. set_solver.
  - split; [|intros [H _]; discriminate H]. intros (p & r & Hin).
    repeat (apply elem_of_cons in Hin as [Hin|Hin]; [discriminate Hin|]).
    inversion Hin.
Qed.

(** A logo file that is not an image: neither logo nor brand name on the
    cover. *)
Lemma cover_without_brand_mark :
  exists cover,
    _create_cover_page broken_logo_env logo_config (new_canvas "out.pdf")
    = mkCanvas "out.pdf" [] [mkPage Cover cover] false /\
    (forall x y, DrawString x y "BONO" ∉ cover) /\
    (forall p r, DrawImage p r ∉ cover).
Proof.
  eexists. split; [vm_compute; reflexivity|]. split.
  - intros x y Hin.
    repeat (apply elem_of_cons in Hin as [Hin|Hin]; [discriminate Hin|]).
    inversion Hin.
  - intros p r Hin.
    repeat (apply elem_of_cons in Hin as [Hin|Hin]; [discriminate Hin|]).
    inversion Hin.
Qed.

End CoverMarks.

(** * Further properties of the batch orchestrator *)

Section DiscoveryMore.
Import Pipeline.

(** Which files [run_batch] discovers: the entries of the directory whose
    name ends with a supported extension written all in lower case or all
    in upper case.  A name with a mixed-case extension, such as
    [photo.Png], is not discovered. *)
Theorem find_images_spec (input_dir : string) (names : list string) (p : string) :
  In p (find_images input_dir names) <->
  exists name ext,
    In name names /\ In ext SUPPORTED_FORMATS /\
    p = path_join input_dir name /\
    (ends_with ext name = true \/ ends_with (upper ext) name = true).
Proof.
  unfold find_images, glob. rewrite in_flat_map. split.
  - intros (ext & Hext & Hin). apply in_app_iff in Hin as [Hin|Hin];
      apply in_map_iff in Hin as (name & <- & Hin);
      apply filter_In in Hin as [Hname Hends];
      exists name, ext; auto.
  - intros (name & ext & Hname & Hext & -> & Hends).
    exists ext. split; [exact Hext|]. apply in_app_iff.
    destruct Hends as [Hends|Hends]; [left|right];
      apply in_map_iff; exists name; split; try reflexivity;
      apply filter_In; auto.
Qed.

Lemma mixed_case_extension_not_found :
  find_images "/in" ["photo.Png"; "a.png"; "B.JPEG"] = ["/in/a.png"; "/in/B.JPEG"].
Proof. vm_compute. reflexivity. Qed.

End DiscoveryMore.


Section ItemTrace.
Import Pipeline.

Context {World : Type}.
Variable ext : Externals World.

Lemma bind_call_eq {A B} (ev : Event) (f : World -> Outcome A * World)
    (k : A -> @IO World B) (st : St World) :
  bind (call ev f) k st
  = match f (world st) with
    | (Ret a, w) => k a (mkSt w (trace st ++ [ev]))
    | (Raise e, w) => (Raise e, mkSt w (trace st ++ [ev]))
    end.
Proof.
  unfold bind, call. destruct (f (world st)) as [[a|e] w]; reflexivity.
Qed.

(** The calls of [submit_workflow_with_images], in order: the workflow is
    loaded, the image encoded, the job submitted; a call that raises ends
    the sequence, and after the submission only outputs are decoded. *)
Lemma submit_workflow_trace (garment_image_path output_dir : string) (st : St World) :
  exists evs,
    trace (submit_workflow_with_images ext garment_image_path output_dir st).2
    = (trace st ++ evs)%list /\
    ((exists n, (0 < n <= 2)%nat /\
        evs = take n [EvLoadWorkflow; EvEncode garment_image_path] /\
        is_ret (submit_workflow_with_images ext garment_image_path output_dir st).1
        = false) \/
     (exists b64 tail,
        evs = ([EvLoadWorkflow; EvEncode garment_image_path] ++ EvSubmit b64 :: tail)%list /\
        Forall output_event tail)).
Proof.
  unfold submit_workflow_with_images.
  rewrite bind_call_eq.
  destruct (ext_load_workflow ext (world st)) as [[[]|e] w1].
  2:{ exists [EvLoadWorkflow]. split; [reflexivity|]. left. exists 1%nat.
      cbn. repeat split; lia. }
  rewrite bind_call_eq. cbn [world trace].
  destruct (ext_encode_image ext garment_image_path w1) as [[b64|e] w2].
  2:{ exists [EvLoadWorkflow; EvEncode garment_image_path].
      split; [cbn; rewrite <- app_assoc; reflexivity|].
      left. exists 2%nat. cbn. repeat split; lia. }
  rewrite bind_call_eq. cbn [world trace].
  destruct (ext_submit_job ext b64 w2) as [[result|e] w3].
  2:{ exists [EvLoadWorkflow; EvEncode garment_image_path; EvSubmit b64].
      split; [cbn; rewrite <- !app_assoc; reflexivity|].
      right. exists b64, []. split; [reflexivity | constructor]. }
  destruct (after_submit_emits ext output_dir result
              (mkSt w3 (((trace st ++ [EvLoadWorkflow])
                          ++ [EvEncode garment_image_path]) ++ [EvSubmit b64])))
    as (tail & Ht & Hp).
  exists ([EvLoadWorkflow; EvEncode garment_image_path; EvSubmit b64] ++ tail)%list.
  split.
  - rewrite Ht. cbn [trace]. rewrite <- !app_assoc. reflexivity.
  - right. exists b64, tail. split; [reflexivity | exact Hp].
Qed.

(** A decoded output is written where its path says, and that call is
    the only one made for it. *)
Lemma decode_output_some (output : gmap string string) (key output_dir : string)
    (jid : option string) (st st' : St World) (p : string) :
  decode_output ext output key output_dir jid st = (Ret (Some p), st') ->
  p = path_join output_dir (key +:+ "_" +:+ fmt_opt jid +:+ ".png") /\
  trace st' = (trace st ++ [EvDecode p])%list.
Proof.
  unfold decode_output. destruct (output !! key) as [b64|]; [|discriminate].
  rewrite bind_call_eq.
  destruct (ext_decode_image ext b64 _ (world st)) as [[[]|e] w]; [|discriminate].
  unfold ret. intros H. injection H as <- <-. split; reflexivity.
Qed.

(** What is decoded after the full-body render changes neither the
    result's [full_body_path] nor its [job_id], and only appends calls. *)
Lemma later_outputs_keep_render (output : gmap string string) (output_dir : string)
    (jid full_body_path : option string) (st st' : St World) (result : ImageSet) :
  bind (decode_output ext output "closeup" output_dir jid) (fun closeup_path =>
  bind (decode_output ext output "final" output_dir jid) (fun output_path =>
  ret (mkImageSet (Some true) None jid full_body_path closeup_path output_path
         None None None None None))) st = (Ret result, st') ->
  d_full_body_path result = full_body_path /\
  d_job_id result = jid /\
  exists evs, trace st' = (trace st ++ evs)%list.
Proof.
  intros H.
  assert (Hem : emits output_event
            (bind (decode_output ext output "closeup" output_dir jid)
               (fun closeup_path =>
             bind (decode_output ext output "final" output_dir jid)
               (fun output_path =>
             ret (mkImageSet (Some true) None jid full_body_path closeup_path
                    output_path None None None None None))))).
  { repeat (apply emits_bind; [apply decode_output_emits | intros]).
    apply emits_ret. }
  destruct (Hem st) as (evs & Ht & _). rewrite H in Ht. cbn [snd] in Ht.
  unfold bind in H.
  destruct (decode_output ext output "closeup" output_dir jid st)
    as [[cp|e] s1]; [|discriminate].
  destruct (decode_output ext output "final" output_dir jid s1)
    as [[op|e] s2]; [|discriminate].
  unfold ret in H. injection H as <- <-.
  split; [reflexivity|]. split; [reflexivity|]. exists evs. exact Ht.
Qed.

(** A successful result of [submit_workflow_with_images] that carries a
    full-body path: the path is [full_body_<job id>.png] in the output
    directory, and the render was decoded to it in this run. *)
Lemma submit_workflow_render (garment_image_path output_dir : string)
    (st st' : St World) (result : ImageSet) :
  submit_workflow_with_images ext garment_image_path output_dir st
  = (Ret result, st') ->
  truthy_str (d_full_body_path result) = true ->
  let render :=
    path_join output_dir ("full_body_" +:+ fmt_opt (d_job_id result) +:+ ".png") in
  d_full_body_path result = Some render /\
  exists evs, trace st' = (trace st ++ evs)%list /\ In (EvDecode render) evs.
Proof.
  unfold submit_workflow_with_images.
  rewrite bind_call_eq.
  destruct (ext_load_workflow ext (world st)) as [[[]|e] w1]; [|discriminate].
  rewrite bind_call_eq. cbn [world trace].
  destruct (ext_encode_image ext garment_image_path w1) as [[b64|e] w2];
    [|discriminate].
  rewrite bind_call_eq. cbn [world trace].
  destruct (ext_submit_job ext b64 w2) as [[res|e] w3]; [|discriminate].
  destruct (negb (RunPod.success res)).
  { unfold ret. intros H. injection H as <- <-. discriminate. }
  unfold bind at 1.
  destruct (decode_output ext (default ∅ (RunPod.output res)) "full_body"
              output_dir (RunPod.job_id res) _) as [[fb|e] s4] eqn:Efb;
    [|discriminate].
  intros H Htruthy.
  apply later_outputs_keep_render in H as (Hfb & Hjid & evs & Ht).
  rewrite Hfb in Htruthy. destruct fb as [p|]; [|discriminate].
  apply decode_output_some in Efb as (Hp & Ht4). cbn [trace] in Ht4.
  cbv zeta. rewrite Hfb, Hjid. split; [rewrite Hp; reflexivity|].
  exists ([EvLoadWorkflow; EvEncode garment_image_path; EvSubmit b64;
           EvDecode p] ++ evs)%list.
  split.
  - rewrite Ht, Ht4. rewrite <- !app_assoc. reflexivity.
  - right. right. right. left. rewrite Hp. reflexivity.
Qed.

End ItemTrace.

Section ItemClaims.
Import Pipeline PipelineRuns.

Context {World : Type}.
Variable ext : Externals World.
Variable cfg : PipelineConfig.

(** The order of the calls made for one garment.  The image is prepared,
    the workflow loaded twice and the prepared image encoded before the
    job is submitted; a step that raises ends the item there, so a garment
    whose preparation fails is never submitted; the job is submitted at
    most once; after the submission only outputs are decoded and the
    close-up is cut. *)
Theorem garment_submitted_once (garment_path output_dir : string) (st : St World) :
  let prepared := path_join (path_join output_dir "temp") (path_name garment_path) in
  let before := [EvPrepare garment_path prepared; EvLoadWorkflow; EvLoadWorkflow;
                 EvEncode prepared] in
  let run := process_single_garment ext garment_path output_dir st in
  exists evs,
    trace run.2 = (trace st ++ evs)%list /\
    ((exists n, (0 < n <= 4)%nat /\ evs = take n before /\ is_ret run.1 = false) \/
     (exists b64 tail,
        evs = (before ++ EvSubmit b64 :: tail)%list /\ Forall output_event tail)).
Proof.
  cbv zeta.
  set (prepared := path_join (path_join output_dir "temp") (path_name garment_path)).
  remember (process_single_garment ext garment_path output_dir st) as run eqn:Hrun.
  unfold process_single_garment in Hrun. fold prepared in Hrun.
  rewrite bind_call_eq in Hrun.
  destruct (ext_prepare ext garment_path prepared (world st)) as [[[]|e] w1].
  2:{ subst run. exists [EvPrepare garment_path prepared]. split; [reflexivity|].
      left. exists 1%nat. cbn. repeat split; lia. }
  rewrite bind_call_eq in Hrun. cbn [world trace] in Hrun.
  destruct (ext_load_workflow ext w1) as [[[]|e] w2].
  2:{ subst run. exists [EvPrepare garment_path prepared; EvLoadWorkflow].
      split; [cbn; rewrite <- app_assoc; reflexivity|].
      left. exists 2%nat. cbn. repeat split; lia. }
  unfold bind at 1 in Hrun.
  set (st2 := mkSt w2 ((trace st ++ [EvPrepare garment_path prepared])
                         ++ [EvLoadWorkflow])) in Hrun.
  destruct (submit_workflow_trace ext prepared output_dir st2) as (evs & Ht & Hcases).
  destruct (submit_workflow_with_images ext prepared output_dir st2)
    as [[result|e] st3] eqn:Eswi; cbn [fst snd] in *.
  - destruct Hcases as [(n & _ & _ & Hraise) | (b64 & tail & -> & Htail)];
      [discriminate|].
    destruct (after_workflow_emits ext garment_path output_dir result st3)
      as (tail2 & Ht2 & Hp2).
    rewrite <- Hrun in Ht2.
    exists ([EvPrepare garment_path prepared; EvLoadWorkflow]
            ++ ([EvLoadWorkflow; EvEncode prepared] ++ EvSubmit b64 :: tail) ++ tail2)%list.
    split.
    + rewrite Ht2, Ht. subst st2. cbn [trace]. rewrite <- !app_assoc. reflexivity.
    + right. exists b64, (tail ++ tail2)%list. split.
      * cbn. rewrite <- ?app_assoc. reflexivity.
      * apply Forall_app. auto.
  - subst run. cbn [fst snd].
    exists ([EvPrepare garment_path prepared; EvLoadWorkflow] ++ evs)%list.
    split; [rewrite Ht; subst st2; cbn [trace]; rewrite <- !app_assoc; reflexivity|].
    destruct Hcases as [(n & Hn & -> & _) | (b64 & tail & -> & Htail)].
    + left. exists (2 + n)%nat. repeat split; lia.
    + right. exists b64, tail. split; [reflexivity | exact Htail].
Qed.

(** When the job of a garment succeeded and returned a full-body render,
    the render was decoded in this run to [full_body_<job id>.png] in the
    output directory, the last call of the item cuts the close-up from
    that file into [closeup_<stem>.png], and the result's [closeup_path]
    names that crop, also when the endpoint returned a close-up of its
    own. *)
Theorem closeup_is_cut_locally (garment_path output_dir : string)
    (st st' : St World) (r : ImageSet) :
  process_single_garment ext garment_path output_dir st = (Ret r, st') ->
  get_success r = true ->
  truthy_str (d_full_body_path r) = true ->
  let closeup :=
    path_join output_dir ("closeup_" +:+ path_stem garment_path +:+ ".png") in
  let render :=
    path_join output_dir ("full_body_" +:+ fmt_opt (d_job_id r) +:+ ".png") in
  d_full_body_path r = Some render /\
  d_closeup_path r = Some closeup /\
  exists evs,
    trace st' = (trace st ++ evs ++ [EvCloseup render closeup])%list /\
    In (EvDecode render) evs.
Proof.
  unfold process_single_garment.
  set (prepared := path_join (path_join output_dir "temp") (path_name garment_path)).
  rewrite bind_call_eq.
  destruct (ext_prepare ext garment_path prepared (world st)) as [[[]|e] w1];
    [|discriminate].
  rewrite bind_call_eq. cbn [world trace].
  destruct (ext_load_workflow ext w1) as [[[]|e] w2]; [|discriminate].
  unfold bind at 1.
  destruct (submit_workflow_with_images ext prepared output_dir _)
    as [[result|e] st3] eqn:Eswi; [|discriminate].
  destruct (get_success result && truthy_str (d_full_body_path result)) eqn:Econd.
  - apply andb_true_iff in Econd as [_ Htruthy].
    destruct (submit_workflow_render ext prepared output_dir _ _ _ Eswi Htruthy)
      as (Hfb & evs & Ht & Hin).
    cbn [trace] in Ht.
    rewrite bind_call_eq.
    destruct (ext_create_closeup ext _ _ _) as [[[]|e] w4]; [|discriminate].
    unfold ret. intros H _ _. injection H as <- <-. cbv zeta.
    cbn [d_full_body_path d_closeup_path d_job_id set_closeup_path trace].
    split; [exact Hfb|]. split; [reflexivity|].
    exists ([EvPrepare garment_path prepared; EvLoadWorkflow] ++ evs)%list.
    split.
    + rewrite Ht, Hfb. cbn [fmt_opt]. rewrite <- !app_assoc. reflexivity.
    + apply in_or_app. right. exact Hin.
  - unfold ret. intros H Hs Hf. injection H as <- <-.
    rewrite Hs, Hf in Econd. discriminate.
Qed.

(** The results of the loop keep the order of discovery: the [i]-th result
    carries the stem of the [i]-th discovered file as [garment_name],
    whether its processing returned or raised. *)
Theorem process_all_names (image_files : list string) (images_dir : string) :
  forall st : St World,
    map d_garment_name (process_all ext image_files images_dir st).1
    = map (fun p => Some (path_stem p)) image_files.
Proof.
  induction image_files as [|g rest IH]; intros st; [reflexivity|].
  cbn [process_all].
  destruct (process_single_garment ext g images_dir st) as [o st1].
  specialize (IH st1).
  destruct (process_all ext rest images_dir st1) as [rs st2].
  cbn [fst map] in *. rewrite IH. f_equal. destruct o; reflexivity.
Qed.

(** The report names a document exactly when one was saved in this run:
    among the events a returning [run_batch] appends to the trace, a
    document saved at path [p] occurs if and only if the report's
    [pdf_path] is [p].  With [generate_pdf = False] [run_batch] always
    returns a report, and its [pdf_path] is unset. *)
Theorem run_batch_pdf_path (input_dir output_dir : string) (generate_pdf : bool)
    (st : St World) :
  (forall report st',
     run_batch ext cfg input_dir output_dir generate_pdf st = (Ret report, st') ->
     exists evs,
       trace st' = (trace st ++ evs)%list /\
       forall p, (exists pages, In (EvSavePdf p pages) evs) <-> pdf_path report = Some p) /\
  (generate_pdf = false ->
   exists report st',
     run_batch ext cfg input_dir output_dir generate_pdf st = (Ret report, st') /\
     pdf_path report = None).
Proof.
  unfold run_batch.
  destruct (find_images input_dir (ext_listdir ext (world st) input_dir))
    as [|g rest] eqn:Efiles.
  { split.
    - intros report st' H. injection H as <- <-. exists []. rewrite app_nil_r.
      split; [reflexivity|]. intros p. cbn. split; [intros [_ []] | discriminate].
    - intros _. eexists _, _. split; reflexivity. }
  destruct (process_all_emits ext (g :: rest) (path_join output_dir "HighRes_Images") st)
    as (evs & Ht & Hp).
  destruct (process_all ext (g :: rest) (path_join output_dir "HighRes_Images") st)
    as [rs st1]. cbn [snd] in Ht.
  assert (Hnone : forall p pages, ~ In (EvSavePdf p pages) evs).
  { intros p pages Hin. rewrite Forall_forall in Hp.
    apply (Hp (EvSavePdf p pages)). apply list_elem_of_In. exact Hin. }
  split.
  - intros report st' H.
    destruct generate_pdf, (List.filter get_success rs) as [|r0 ok];
      try (injection H as <- <-; exists evs; split; [exact Ht|];
           intros p; cbn [pdf_path]; split;
           [intros [pages Hin]; exfalso; eapply Hnone; eauto | discriminate]).
    destruct (Assembler.create_catalog _ _ _ _ _) as [canvas|e]; [|discriminate].
    injection H as <- <-. eexists (evs ++ [_])%list. cbn [trace pdf_path].
    split; [rewrite Ht, app_assoc; reflexivity|].
    intros p. split.
    + intros [pages Hin]. apply in_app_iff in Hin as [Hin|[Hin|[]]].
      * exfalso. eapply Hnone; eauto.
      * injection Hin as <- _. reflexivity.
    + intros H. injection H as <-. eexists. apply in_app_iff. right. left. reflexivity.
  - intros ->. eexists _, _. split; reflexivity.
Qed.

End ItemClaims.

Section CatalogFromImages.
Import Pipeline.

Lemma insert_sorted_length (x : string) (l : list string) :
  length (insert_sorted x l) = S (length l).
Proof.
  induction l as [|y l IH]; [reflexivity|].
  cbn [insert_sorted]. destruct (String.leb x y); cbn; congruence.
Qed.

Lemma insert_sorted_In (x y : string) (l : list string) :
  In y (insert_sorted x l) <-> y = x \/ In y l.
Proof.
  induction l as [|z l IH]; cbn [insert_sorted].
  - cbn. intuition.
  - destruct (String.leb x z); cbn [In]; [intuition|].
    rewrite IH. intuition.
Qed.

Lemma sorted_length (l : list string) : length (sorted l) = length l.
Proof.
  unfold sorted. induction l as [|x l IH]; [reflexivity|].
  cbn [fold_right]. rewrite insert_sorted_length. cbn. f_equal. exact IH.
Qed.

Lemma sorted_In (y : string) (l : list string) : In y (sorted l) <-> In y l.
Proof.
  unfold sorted. induction l as [|x l IH]; [reflexivity|].
  cbn [fold_right In]. rewrite insert_sorted_In, IH. intuition.
Qed.

Lemma path_join_nonempty (a b : string) : String.eqb (path_join a b) "" = false.
Proof. unfold path_join. destruct a; reflexivity. Qed.

Context {World : Type}.
Variable ext : Externals World.
Variable cfg : PipelineConfig.

(** [generate_catalog_from_images] on a directory that lists at least one
    [.png] name returns the output path and saves a document with exactly
    one product page per such name; it does so whether or not the files
    can be read as images. *)
Theorem generate_catalog_from_images_pages (images_dir output_path : string)
    (st : St World) :
  let files := glob images_dir (ext_listdir ext (world st) images_dir) ".png" in
  files <> [] ->
  exists pages,
    generate_catalog_from_images ext cfg images_dir output_path st
    = (Ret output_path, mkSt (world st) (trace st ++ [EvSavePdf output_path pages])) /\
    length (filter (fun pg => Assembler.kind pg = Assembler.Product) pages)
    = length files.
Proof.
  intros files Hne. unfold generate_catalog_from_images. fold files.
  assert (Hfiles : forall f, In f files -> String.eqb f "" = false).
  { intros f Hin. unfold files, glob in Hin.
    apply in_map_iff in Hin as (name & <- & _). apply path_join_nonempty. }
  clearbody files.
  set (images := map _ (sorted files)).
  assert (Hlen : length images = length files).
  { subst images. rewrite length_map. apply sorted_length. }
  assert (Hprimary : forall im, im ∈ images -> is_Some (Assembler.primary_image im)).
  { intros im Him. subst images. apply list_elem_of_In, in_map_iff in Him
      as (img_file & <- & Hin).
    apply sorted_In, Hfiles in Hin.
    unfold Assembler.primary_image, py_or, truthy_str. cbn.
    rewrite Hin. cbn. eexists. reflexivity. }
  clearbody images.
  destruct images as [|im0 images'].
  { destruct files; [congruence | discriminate]. }
  destruct (create_catalog_page_count (ext_fs ext (world st)) (cfg_assembler cfg)
              (im0 :: images') output_path true Hprimary) as (c & -> & _ & _ & Hn & _).
  exists (Assembler.pages c). split; [reflexivity|].
  unfold Assembler.product_page_count in Hn. congruence.
Qed.

End CatalogFromImages.

Section PipelineMoreRuns.
Import Pipeline PipelineRuns.

Lemma closeup_is_cut_locally_witness :
  let run := process_single_garment (disk_ext two_photos a_is_corrupt full_body_only)
               "/in/b.png" "/out/HighRes_Images" start in
  let r := mkImageSet (Some true) None (Some "job-1")
             (Some "/out/HighRes_Images/full_body_job-1.png")
             (Some "/out/HighRes_Images/closeup_b.png") None None None None None None in
  d_full_body_path r = Some "/out/HighRes_Images/full_body_job-1.png" /\
  d_closeup_path r = Some "/out/HighRes_Images/closeup_b.png" /\
  exists evs,
    trace run.2
    = (trace start ++ evs
       ++ [EvCloseup "/out/HighRes_Images/full_body_job-1.png"
             "/out/HighRes_Images/closeup_b.png"])%list /\
    In (EvDecode "/out/HighRes_Images/full_body_job-1.png") evs.
Proof.
  cbv zeta.
  apply (closeup_is_cut_locally (disk_ext two_photos a_is_corrupt full_body_only)
           "/in/b.png" "/out/HighRes_Images" start).
  - apply injective_projections; [vm_compute; reflexivity | reflexivity].
  - reflexivity.
  - reflexivity.
Defined.

Lemma run_batch_pdf_path_witness :
  exists report st',
    run_batch (disk_ext two_photos a_is_corrupt full_body_only) bono_pipeline
      "/in" "/out" false start = (Ret report, st') /\
    pdf_path report = None.
Proof.
  apply (proj2 (run_batch_pdf_path (disk_ext two_photos a_is_corrupt full_body_only)
                  bono_pipeline "/in" "/out" false start)).
  reflexivity.
Defined.

Lemma generate_catalog_from_images_pages_witness :
  exists pages,
    generate_catalog_from_images (disk_ext two_photos a_is_corrupt full_body_only)
      bono_pipeline "/in" "/out/catalog.pdf" start
    = (Ret "/out/catalog.pdf",
       mkSt (world start) (trace start ++ [EvSavePdf "/out/catalog.pdf" pages])) /\
    length (filter (fun pg => Assembler.kind pg = Assembler.Product) pages) = 2%nat.
Proof.
  apply (generate_catalog_from_images_pages
           (disk_ext two_photos a_is_corrupt full_body_only) bono_pipeline
           "/in" "/out/catalog.pdf" start).
  vm_compute. discriminate.
Defined.

Lemma run_batch_document_pages_witness :
  exists report pages st',
    run_batch (disk_ext two_photos a_is_corrupt full_body_and_final) bono_pipeline
      "/in" "/out" true start = (Ret report, st') /\
    last (trace st') = Some (EvSavePdf "/out/Final_Catalog_bono.pdf" pages) /\
    pdf_path report = Some "/out/Final_Catalog_bono.pdf" /\
    length (filter (fun pg => Assembler.kind pg = Assembler.Product) pages) = 1%nat.
Proof.
  destruct (run_batch_document_pages
              (disk_ext two_photos a_is_corrupt full_body_and_final) bono_pipeline
              "/in" "/out" start) as (report & pages & Hrun & Hpdf & _ & Hn).
  - vm_compute. discriminate.
  - intros r Hin Hok. apply list_elem_of_In in Hin. vm_compute in Hin.
    destruct Hin as [<-|[<-|[]]]; [discriminate Hok | eexists; reflexivity].
  - vm_compute. discriminate.
  - exists report, pages. eexists. split; [exact Hrun|].
    split; [apply last_snoc|]. split; [exact Hpdf|].
    rewrite Hn. vm_compute. reflexivity.
Defined.

End PipelineMoreRuns.

(** * The configuration check *)

Section Validation.
Import Config.

Lemma require_nil (value message : string) :
  require value message = [] <-> value <> "".
Proof.
  unfold require. destruct (String.eqb value "") eqn:E.
  - apply String.eqb_eq in E. split; [discriminate | congruence].
  - apply String.eqb_neq in E. tauto.
Qed.

Lemma require_In (value message m : string) :
  In m (require value message) <-> value = "" /\ m = message.
Proof.
  unfold require. destruct (String.eqb value "") eqn:E.
  - apply String.eqb_eq in E. cbn. intuition.
  - apply String.eqb_neq in E. cbn. intuition.
Qed.

(** [validate] returns [True] exactly when none of the four required
    settings is empty; otherwise it raises [ValueError], and the errors it
    collected name exactly the settings that are empty. *)
Theorem validate_required_settings (cfg : Config) :
  (validate cfg = Ret true <->
   api_key cfg <> "" /\ endpoint_id cfg <> "" /\
   input_folder_id cfg <> "" /\ output_folder_id cfg <> "") /\
  (validate cfg = Ret true \/
   validate cfg
   = Raise (Exn "ValueError"
              ("Configuration errors: " +:+ join ", " (validation_errors cfg)))) /\
  (In "RUNPOD_API_KEY is required" (validation_errors cfg) <-> api_key cfg = "") /\
  (In "RUNPOD_ENDPOINT_ID is required" (validation_errors cfg)
   <-> endpoint_id cfg = "") /\
  (In "GOOGLE_DRIVE_INPUT_FOLDER_ID is required" (validation_errors cfg)
   <-> input_folder_id cfg = "") /\
  (In "GOOGLE_DRIVE_OUTPUT_FOLDER_ID is required" (validation_errors cfg)
   <-> output_folder_id cfg = "").
Proof.
  split; [|split].
  - unfold validate.
    destruct (validation_errors cfg) as [|m ms] eqn:E.
    + split; [intros _|reflexivity].
      unfold validation_errors in E.
      apply app_eq_nil in E as [E1 E]. apply app_eq_nil in E as [E2 E].
      apply app_eq_nil in E as [E3 E4].
      rewrite require_nil in E1, E2, E3, E4. auto.
    + split; [discriminate|]. intros (H1 & H2 & H3 & H4). exfalso.
      unfold validation_errors in E.
      rewrite (proj2 (require_nil _ _) H1), (proj2 (require_nil _ _) H2),
        (proj2 (require_nil _ _) H3), (proj2 (require_nil _ _) H4) in E.
      discriminate.
  - unfold validate. destruct (validation_errors cfg); auto.
  - unfold validation_errors. rewrite !in_app_iff, !require_In.
    repeat split; intros H; try tauto;
      repeat match goal with
             | H : _ \/ _ |- _ => destruct H
             | H : _ /\ _ |- _ => destruct H
             end; try assumption; try discriminate.
Qed.

End Validation.

(** * The pose rotation of the teen-boy generator *)

Section Poses.
Import TeenBoy.

Variable POSITIVE_PROMPT : string.

(** The pose with a given number, 0 to 4. *)
Lemma py_getitem_pose (k : Z) :
  0 <= k < 5 ->
  py_getitem POSE_VARIATIONS k = Ret (nth (Z.to_nat k) POSE_VARIATIONS "").
Proof.
  intros Hk.
  assert (k = 0 \/ k = 1 \/ k = 2 \/ k = 3 \/ k = 4) as [->|[->|[->|[->| ->]]]] by lia;
    reflexivity.
Qed.

Lemma explicit_pose (i s : Z) :
  get_model_prompt_with_pose POSITIVE_PROMPT (Some i) s
  = (Ret (POSITIVE_PROMPT +:+ ", " +:+ nth (Z.to_nat (i mod 5)) POSE_VARIATIONS ""), s).
Proof.
  unfold get_model_prompt_with_pose.
  change (Z.of_nat (length POSE_VARIATIONS)) with 5.
  rewrite py_getitem_pose by (apply Z.mod_pos_bound; lia). reflexivity.
Qed.

Lemma automatic_pose (s : Z) :
  0 <= s < 5 ->
  get_model_prompt_with_pose POSITIVE_PROMPT None s
  = (Ret (POSITIVE_PROMPT +:+ ", " +:+ nth (Z.to_nat s) POSE_VARIATIONS ""),
     (s + 1) mod 5).
Proof.
  intros Hs. unfold get_model_prompt_with_pose.
  change (Z.of_nat (length POSE_VARIATIONS)) with 5.
  rewrite (Z.mod_small s 5) by lia. rewrite py_getitem_pose by lia. reflexivity.
Qed.

Lemma rotate_spec (n : nat) : forall s,
  0 <= s < 5 ->
  (rotate POSITIVE_PROMPT n s).2 = (s + Z.of_nat n) mod 5 /\
  forall k, (k < n)%nat ->
    (rotate POSITIVE_PROMPT n s).1 !! k
    = Some (Ret (POSITIVE_PROMPT +:+ ", "
                 +:+ nth (Z.to_nat ((s + Z.of_nat k) mod 5)) POSE_VARIATIONS "")).
Proof.
  induction n as [|n IH]; intros s Hs.
  - cbn. split; [rewrite Z.add_0_r, Z.mod_small by lia; reflexivity | lia].
  - cbn [rotate]. rewrite automatic_pose by exact Hs.
    destruct (IH ((s + 1) mod 5)) as [Hfinal Hpr]; [apply Z.mod_pos_bound; lia|].
    destruct (rotate POSITIVE_PROMPT n ((s + 1) mod 5)) as [prompts final].
    cbn [fst snd] in *. split.
    + rewrite Hfinal, Zplus_mod_idemp_l.
      replace (s + Z.of_nat (S n)) with (s + 1 + Z.of_nat n) by lia. reflexivity.
    + intros [|k] Hk.
      * cbn. rewrite Z.add_0_r, Z.mod_small by lia. reflexivity.
      * rewrite lookup_cons. rewrite Hpr by lia.
        rewrite Zplus_mod_idemp_l.
        replace (s + Z.of_nat (S k)) with (s + 1 + Z.of_nat k) by lia. reflexivity.
Qed.

End Poses.

Section PoseClaims.
Import TeenBoy.

(** [get_model_prompt_with_pose] never fails with [IndexError]: an
    explicit index, of any sign and size, selects pose number
    [index mod 5] and leaves the rotation where it was; without an index
    the call takes the pose the rotation points at and advances it, so
    successive calls walk through the five poses in order and the
    rotation is back where it started after five calls. *)
Theorem pose_rotation (POSITIVE_PROMPT : string) :
  (forall i s,
     get_model_prompt_with_pose POSITIVE_PROMPT (Some i) s
     = (Ret (POSITIVE_PROMPT +:+ ", " +:+ nth (Z.to_nat (i mod 5)) POSE_VARIATIONS ""),
        s)) /\
  (forall s n,
     0 <= s < 5 ->
     (rotate POSITIVE_PROMPT n s).2 = (s + Z.of_nat n) mod 5 /\
     (forall k, (k < n)%nat ->
        (rotate POSITIVE_PROMPT n s).1 !! k
        = Some (Ret (POSITIVE_PROMPT +:+ ", "
                     +:+ nth (Z.to_nat ((s + Z.of_nat k) mod 5)) POSE_VARIATIONS "")))) /\
  (forall s, 0 <= s < 5 -> (rotate POSITIVE_PROMPT 5 s).2 = s).
Proof.
  split; [apply explicit_pose|]. split.
  - intros s n Hs. apply rotate_spec. exact Hs.
  - intros s Hs. rewrite (proj1 (rotate_spec POSITIVE_PROMPT 5 s Hs)).
    change (Z.of_nat 5) with 5. replace (s + 5) with (s + 1 * 5) by lia.
    rewrite Z_mod_plus_full. apply Z.mod_small. lia.
Qed.

Lemma pose_rotation_witness :
  (rotate "teen" 7 0).2 = 2 /\
  (rotate "teen" 7 0).1 !! 6%nat
  = Some (Ret ("teen" +:+ ", " +:+ nth 1 POSE_VARIATIONS "")).
Proof.
  destruct (pose_rotation "teen") as (_ & Hrot & _).
  destruct (Hrot 0 7%nat) as [Hfinal Hk]; [lia|].
  split; [exact Hfinal | exact (Hk 6%nat ltac:(lia))].
Defined.

End PoseClaims.
